(** * Natural-language word extraction, character n-grams and alignment
    scores: a shallow embedding of [plaintext.py], [measurements.py] and
    [convert_dir_to_char_ngrams.py].

    Python values are modelled as follows.
    - [str] is a list of Unicode code points ([Z]); [len] is [length].
    - [int] is [Z]; the [float] produced by [int / int] is the exact
      rational it rounds (1/2 and 1/1 are representable, so nothing is lost
      where a concrete value is stated).
    - [dict] is a [gmap]; none of the functions below depends on the
      iteration order of a dictionary.
    - a raised exception is the [Raise] outcome of the [result] monad. *)

From Stdlib Require Import ZArith QArith Ascii String.
From stdpp Require Import base tactics option list gmap.

Local Open Scope Z_scope.

(** ** Exceptions and the result monad *)

(** The built-in exceptions the modelled code can raise.  [re_error] is
    [re.error]; it also stands for regular-expression syntax outside the
    subset parsed below.  [EmptyBenchmark] and [NoOverlap] are the two
    conditions the specification names for the alignment scorer. *)
Inductive exception : Set :=
| ZeroDivisionError
| KeyError
| IndexError
| ValueError
| TypeError
| AttributeError
| re_error
| EmptyBenchmark
| NoOverlap.

Inductive result (A : Type) : Type :=
| Return (a : A)
| Raise (e : exception).

Arguments Return {A} a.
Arguments Raise {A} e.

#[global] Instance result_ret : MRet result := fun A a => Return a.
#[global] Instance result_bind : MBind result := fun A B f m =>
  match m with
  | Return a => f a
  | Raise e => Raise e
  end.

(** [for x in xs: state = body(state, x)], stopping at the first exception. *)
Fixpoint for_each {S A : Type} (body : S -> A -> result S) (xs : list A) (s : S)
  : result S :=
  match xs with
  | [] => Return s
  | x :: xs' => s' ← body s x; for_each body xs' s'
  end.

(** ** Strings *)

Abbreviation str := (list Z).

Definition ord (a : ascii) : Z := Z.of_N (N_of_ascii a).

(** A string literal whose characters are all ASCII. *)
Definition py (s : string) : str := ord <$> list_ascii_of_string s.

Definition len {A : Type} (l : list A) : Z := Z.of_nat (length l).

(** Truth value of a string: non-empty. *)
Definition truthy (s : str) : bool :=
  match s with
  | [] => false
  | _ :: _ => true
  end.

(** [c in s] for a one-character [c]. *)
Definition contains (c : Z) (s : str) : bool := existsb (Z.eqb c) s.

(** [range(a, b)]. *)
Definition range (a b : Z) : list Z :=
  (fun k : nat => a + Z.of_nat k) <$> seq 0 (Z.to_nat (b - a)).

(** [s[i:j]] for integers [i], [j]: a negative index counts from the end,
    and both bounds are clipped to the string. *)
Definition slice_index {A : Type} (s : list A) (k : Z) : Z :=
  if k <? 0 then Z.max 0 (k + len s) else Z.min k (len s).

Definition slice {A : Type} (s : list A) (i j : Z) : list A :=
  let lo := slice_index s i in
  let hi := slice_index s j in
  take (Z.to_nat (hi - lo)) (drop (Z.to_nat lo) s).

(** [s[i]]: a negative index counts from the end; [IndexError] outside the
    list. *)
Definition getitem {A : Type} (s : list A) (i : Z) : result A :=
  let k := if i <? 0 then i + len s else i in
  if k <? 0 then Raise IndexError
  else match s !! Z.to_nat k with
       | Some x => Return x
       | None => Raise IndexError
       end.

(** [l.remove(x)]: delete the first element equal to [x]; [ValueError] when
    there is none. *)
Fixpoint list_remove (x : str) (l : list str) : result (list str) :=
  match l with
  | [] => Raise ValueError
  | y :: l' =>
      if decide (y = x) then Return l'
      else l'' ← list_remove x l'; Return (y :: l'')
  end.

(** [text.split(sep)] for a non-empty literal separator: the pieces between
    the successive, non-overlapping occurrences of [sep], left to right.
    [skip] counts the characters of an occurrence still to be passed over,
    [piece] is the current piece, reversed. *)
Fixpoint split_from (sep : str) (skip : nat) (piece : str) (text : str) : list str :=
  match text with
  | [] => [rev piece]
  | c :: text' =>
      match skip with
      | S n => split_from sep n piece text'
      | O =>
          if bool_decide (sep `prefix_of` text)
          then rev piece :: split_from sep (length sep - 1) [] text'
          else split_from sep O (c :: piece) text'
      end
  end.

Definition split (text sep : str) : result (list str) :=
  match sep with
  | [] => Raise ValueError
  | _ => Return (split_from sep O [] text)
  end.

(** ** The Unicode character database

    Character classes as CPython computes them from the Unicode character
    database (the ranges below are those of Unicode 14.0.0). *)

Definition in_ranges (table : list (Z * Z)) (c : Z) : bool :=
  existsb (fun r => (fst r <=? c) && (c <=? snd r)) table.

(** [str.isspace], the class behind [str.strip()] and [\s]. *)
Definition whitespace_ranges : list (Z * Z) :=
  [ (0x9, 0xd); (0x1c, 0x20); (0x85, 0x85); (0xa0, 0xa0); (0x1680, 0x1680);
    (0x2000, 0x200a); (0x2028, 0x2029); (0x202f, 0x202f); (0x205f, 0x205f);
    (0x3000, 0x3000) ].

(** [str.isdecimal], the class behind [\d]. *)
Definition decimal_ranges : list (Z * Z) :=
  [
   (0x30, 0x39); (0x660, 0x669); (0x6f0, 0x6f9); (0x7c0, 0x7c9); (0x966, 0x96f); (0x9e6, 0x9ef);
   (0xa66, 0xa6f); (0xae6, 0xaef); (0xb66, 0xb6f); (0xbe6, 0xbef); (0xc66, 0xc6f);
   (0xce6, 0xcef); (0xd66, 0xd6f); (0xde6, 0xdef); (0xe50, 0xe59); (0xed0, 0xed9);
   (0xf20, 0xf29); (0x1040, 0x1049); (0x1090, 0x1099); (0x17e0, 0x17e9); (0x1810, 0x1819);
   (0x1946, 0x194f); (0x19d0, 0x19d9); (0x1a80, 0x1a89); (0x1a90, 0x1a99); (0x1b50, 0x1b59);
   (0x1bb0, 0x1bb9); (0x1c40, 0x1c49); (0x1c50, 0x1c59); (0xa620, 0xa629); (0xa8d0, 0xa8d9);
   (0xa900, 0xa909); (0xa9d0, 0xa9d9); (0xa9f0, 0xa9f9); (0xaa50, 0xaa59); (0xabf0, 0xabf9);
   (0xff10, 0xff19); (0x104a0, 0x104a9); (0x10d30, 0x10d39); (0x11066, 0x1106f);
   (0x110f0, 0x110f9); (0x11136, 0x1113f); (0x111d0, 0x111d9); (0x112f0, 0x112f9);
   (0x11450, 0x11459); (0x114d0, 0x114d9); (0x11650, 0x11659); (0x116c0, 0x116c9);
   (0x11730, 0x11739); (0x118e0, 0x118e9); (0x11950, 0x11959); (0x11c50, 0x11c59);
   (0x11d50, 0x11d59); (0x11da0, 0x11da9); (0x16a60, 0x16a69); (0x16ac0, 0x16ac9);
   (0x16b50, 0x16b59); (0x1d7ce, 0x1d7ff); (0x1e140, 0x1e149); (0x1e2f0, 0x1e2f9);
   (0x1e950, 0x1e959); (0x1fbf0, 0x1fbf9) ].

(** [str.isalnum], the class behind [\w] (which adds the underscore). *)
Definition alnum_ranges : list (Z * Z) :=
  [
   (0x30, 0x39); (0x41, 0x5a); (0x61, 0x7a); (0xaa, 0xaa); (0xb2, 0xb3); (0xb5, 0xb5);
   (0xb9, 0xba); (0xbc, 0xbe); (0xc0, 0xd6); (0xd8, 0xf6); (0xf8, 0x2c1); (0x2c6, 0x2d1);
   (0x2e0, 0x2e4); (0x2ec, 0x2ec); (0x2ee, 0x2ee); (0x370, 0x374); (0x376, 0x377);
   (0x37a, 0x37d); (0x37f, 0x37f); (0x386, 0x386); (0x388, 0x38a); (0x38c, 0x38c);
   (0x38e, 0x3a1); (0x3a3, 0x3f5); (0x3f7, 0x481); (0x48a, 0x52f); (0x531, 0x556);
   (0x559, 0x559); (0x560, 0x588); (0x5d0, 0x5ea); (0x5ef, 0x5f2); (0x620, 0x64a);
   (0x660, 0x669); (0x66e, 0x66f); (0x671, 0x6d3); (0x6d5, 0x6d5); (0x6e5, 0x6e6);
   (0x6ee, 0x6fc); (0x6ff, 0x6ff); (0x710, 0x710); (0x712, 0x72f); (0x74d, 0x7a5);
   (0x7b1, 0x7b1); (0x7c0, 0x7ea); (0x7f4, 0x7f5); (0x7fa, 0x7fa); (0x800, 0x815);
   (0x81a, 0x81a); (0x824, 0x824); (0x828, 0x828); (0x840, 0x858); (0x860, 0x86a);
   (0x870, 0x887); (0x889, 0x88e); (0x8a0, 0x8c9); (0x904, 0x939); (0x93d, 0x93d);
   (0x950, 0x950); (0x958, 0x961); (0x966, 0x96f); (0x971, 0x980); (0x985, 0x98c);
   (0x98f, 0x990); (0x993, 0x9a8); (0x9aa, 0x9b0); (0x9b2, 0x9b2); (0x9b6, 0x9b9);
   (0x9bd, 0x9bd); (0x9ce, 0x9ce); (0x9dc, 0x9dd); (0x9df, 0x9e1); (0x9e6, 0x9f1);
   (0x9f4, 0x9f9); (0x9fc, 0x9fc); (0xa05, 0xa0a); (0xa0f, 0xa10); (0xa13, 0xa28);
   (0xa2a, 0xa30); (0xa32, 0xa33); (0xa35, 0xa36); (0xa38, 0xa39); (0xa59, 0xa5c);
   (0xa5e, 0xa5e); (0xa66, 0xa6f); (0xa72, 0xa74); (0xa85, 0xa8d); (0xa8f, 0xa91);
   (0xa93, 0xaa8); (0xaaa, 0xab0); (0xab2, 0xab3); (0xab5, 0xab9); (0xabd, 0xabd);
   (0xad0, 0xad0); (0xae0, 0xae1); (0xae6, 0xaef); (0xaf9, 0xaf9); (0xb05, 0xb0c);
   (0xb0f, 0xb10); (0xb13, 0xb28); (0xb2a, 0xb30); (0xb32, 0xb33); (0xb35, 0xb39);
   (0xb3d, 0xb3d); (0xb5c, 0xb5d); (0xb5f, 0xb61); (0xb66, 0xb6f); (0xb71, 0xb77);
   (0xb83, 0xb83); (0xb85, 0xb8a); (0xb8e, 0xb90); (0xb92, 0xb95); (0xb99, 0xb9a);
   (0xb9c, 0xb9c); (0xb9e, 0xb9f); (0xba3, 0xba4); (0xba8, 0xbaa); (0xbae, 0xbb9);
   (0xbd0, 0xbd0); (0xbe6, 0xbf2); (0xc05, 0xc0c); (0xc0e, 0xc10); (0xc12, 0xc28);
   (0xc2a, 0xc39); (0xc3d, 0xc3d); (0xc58, 0xc5a); (0xc5d, 0xc5d); (0xc60, 0xc61);
   (0xc66, 0xc6f); (0xc78, 0xc7e); (0xc80, 0xc80); (0xc85, 0xc8c); (0xc8e, 0xc90);
   (0xc92, 0xca8); (0xcaa, 0xcb3); (0xcb5, 0xcb9); (0xcbd, 0xcbd); (0xcdd, 0xcde);
   (0xce0, 0xce1); (0xce6, 0xcef); (0xcf1, 0xcf2); (0xd04, 0xd0c); (0xd0e, 0xd10);
   (0xd12, 0xd3a); (0xd3d, 0xd3d); (0xd4e, 0xd4e); (0xd54, 0xd56); (0xd58, 0xd61);
   (0xd66, 0xd78); (0xd7a, 0xd7f); (0xd85, 0xd96); (0xd9a, 0xdb1); (0xdb3, 0xdbb);
   (0xdbd, 0xdbd); (0xdc0, 0xdc6); (0xde6, 0xdef); (0xe01, 0xe30); (0xe32, 0xe33);
   (0xe40, 0xe46); (0xe50, 0xe59); (0xe81, 0xe82); (0xe84, 0xe84); (0xe86, 0xe8a);
   (0xe8c, 0xea3); (0xea5, 0xea5); (0xea7, 0xeb0); (0xeb2, 0xeb3); (0xebd, 0xebd);
   (0xec0, 0xec4); (0xec6, 0xec6); (0xed0, 0xed9); (0xedc, 0xedf); (0xf00, 0xf00);
   (0xf20, 0xf33); (0xf40, 0xf47); (0xf49, 0xf6c); (0xf88, 0xf8c); (0x1000, 0x102a);
   (0x103f, 0x1049); (0x1050, 0x1055); (0x105a, 0x105d); (0x1061, 0x1061); (0x1065, 0x1066);
   (0x106e, 0x1070); (0x1075, 0x1081); (0x108e, 0x108e); (0x1090, 0x1099); (0x10a0, 0x10c5);
   (0x10c7, 0x10c7); (0x10cd, 0x10cd); (0x10d0, 0x10fa); (0x10fc, 0x1248); (0x124a, 0x124d);
   (0x1250, 0x1256); (0x1258, 0x1258); (0x125a, 0x125d); (0x1260, 0x1288); (0x128a, 0x128d);
   (0x1290, 0x12b0); (0x12b2, 0x12b5); (0x12b8, 0x12be); (0x12c0, 0x12c0); (0x12c2, 0x12c5);
   (0x12c8, 0x12d6); (0x12d8, 0x1310); (0x1312, 0x1315); (0x1318, 0x135a); (0x1369, 0x137c);
   (0x1380, 0x138f); (0x13a0, 0x13f5); (0x13f8, 0x13fd); (0x1401, 0x166c); (0x166f, 0x167f);
   (0x1681, 0x169a); (0x16a0, 0x16ea); (0x16ee, 0x16f8); (0x1700, 0x1711); (0x171f, 0x1731);
   (0x1740, 0x1751); (0x1760, 0x176c); (0x176e, 0x1770); (0x1780, 0x17b3); (0x17d7, 0x17d7);
   (0x17dc, 0x17dc); (0x17e0, 0x17e9); (0x17f0, 0x17f9); (0x1810, 0x1819); (0x1820, 0x1878);
   (0x1880, 0x1884); (0x1887, 0x18a8); (0x18aa, 0x18aa); (0x18b0, 0x18f5); (0x1900, 0x191e);
   (0x1946, 0x196d); (0x1970, 0x1974); (0x1980, 0x19ab); (0x19b0, 0x19c9); (0x19d0, 0x19da);
   (0x1a00, 0x1a16); (0x1a20, 0x1a54); (0x1a80, 0x1a89); (0x1a90, 0x1a99); (0x1aa7, 0x1aa7);
   (0x1b05, 0x1b33); (0x1b45, 0x1b4c); (0x1b50, 0x1b59); (0x1b83, 0x1ba0); (0x1bae, 0x1be5);
   (0x1c00, 0x1c23); (0x1c40, 0x1c49); (0x1c4d, 0x1c7d); (0x1c80, 0x1c88); (0x1c90, 0x1cba);
   (0x1cbd, 0x1cbf); (0x1ce9, 0x1cec); (0x1cee, 0x1cf3); (0x1cf5, 0x1cf6); (0x1cfa, 0x1cfa);
   (0x1d00, 0x1dbf); (0x1e00, 0x1f15); (0x1f18, 0x1f1d); (0x1f20, 0x1f45); (0x1f48, 0x1f4d);
   (0x1f50, 0x1f57); (0x1f59, 0x1f59); (0x1f5b, 0x1f5b); (0x1f5d, 0x1f5d); (0x1f5f, 0x1f7d);
   (0x1f80, 0x1fb4); (0x1fb6, 0x1fbc); (0x1fbe, 0x1fbe); (0x1fc2, 0x1fc4); (0x1fc6, 0x1fcc);
   (0x1fd0, 0x1fd3); (0x1fd6, 0x1fdb); (0x1fe0, 0x1fec); (0x1ff2, 0x1ff4); (0x1ff6, 0x1ffc);
   (0x2070, 0x2071); (0x2074, 0x2079); (0x207f, 0x2089); (0x2090, 0x209c); (0x2102, 0x2102);
   (0x2107, 0x2107); (0x210a, 0x2113); (0x2115, 0x2115); (0x2119, 0x211d); (0x2124, 0x2124);
   (0x2126, 0x2126); (0x2128, 0x2128); (0x212a, 0x212d); (0x212f, 0x2139); (0x213c, 0x213f);
   (0x2145, 0x2149); (0x214e, 0x214e); (0x2150, 0x2189); (0x2460, 0x249b); (0x24ea, 0x24ff);
   (0x2776, 0x2793); (0x2c00, 0x2ce4); (0x2ceb, 0x2cee); (0x2cf2, 0x2cf3); (0x2cfd, 0x2cfd);
   (0x2d00, 0x2d25); (0x2d27, 0x2d27); (0x2d2d, 0x2d2d); (0x2d30, 0x2d67); (0x2d6f, 0x2d6f);
   (0x2d80, 0x2d96); (0x2da0, 0x2da6); (0x2da8, 0x2dae); (0x2db0, 0x2db6); (0x2db8, 0x2dbe);
   (0x2dc0, 0x2dc6); (0x2dc8, 0x2dce); (0x2dd0, 0x2dd6); (0x2dd8, 0x2dde); (0x2e2f, 0x2e2f);
   (0x3005, 0x3007); (0x3021, 0x3029); (0x3031, 0x3035); (0x3038, 0x303c); (0x3041, 0x3096);
   (0x309d, 0x309f); (0x30a1, 0x30fa); (0x30fc, 0x30ff); (0x3105, 0x312f); (0x3131, 0x318e);
   (0x3192, 0x3195); (0x31a0, 0x31bf); (0x31f0, 0x31ff); (0x3220, 0x3229); (0x3248, 0x324f);
   (0x3251, 0x325f); (0x3280, 0x3289); (0x32b1, 0x32bf); (0x3400, 0x4dbf); (0x4e00, 0xa48c);
   (0xa4d0, 0xa4fd); (0xa500, 0xa60c); (0xa610, 0xa62b); (0xa640, 0xa66e); (0xa67f, 0xa69d);
   (0xa6a0, 0xa6ef); (0xa717, 0xa71f); (0xa722, 0xa788); (0xa78b, 0xa7ca); (0xa7d0, 0xa7d1);
   (0xa7d3, 0xa7d3); (0xa7d5, 0xa7d9); (0xa7f2, 0xa801); (0xa803, 0xa805); (0xa807, 0xa80a);
   (0xa80c, 0xa822); (0xa830, 0xa835); (0xa840, 0xa873); (0xa882, 0xa8b3); (0xa8d0, 0xa8d9);
   (0xa8f2, 0xa8f7); (0xa8fb, 0xa8fb); (0xa8fd, 0xa8fe); (0xa900, 0xa925); (0xa930, 0xa946);
   (0xa960, 0xa97c); (0xa984, 0xa9b2); (0xa9cf, 0xa9d9); (0xa9e0, 0xa9e4); (0xa9e6, 0xa9fe);
   (0xaa00, 0xaa28); (0xaa40, 0xaa42); (0xaa44, 0xaa4b); (0xaa50, 0xaa59); (0xaa60, 0xaa76);
   (0xaa7a, 0xaa7a); (0xaa7e, 0xaaaf); (0xaab1, 0xaab1); (0xaab5, 0xaab6); (0xaab9, 0xaabd);
   (0xaac0, 0xaac0); (0xaac2, 0xaac2); (0xaadb, 0xaadd); (0xaae0, 0xaaea); (0xaaf2, 0xaaf4);
   (0xab01, 0xab06); (0xab09, 0xab0e); (0xab11, 0xab16); (0xab20, 0xab26); (0xab28, 0xab2e);
   (0xab30, 0xab5a); (0xab5c, 0xab69); (0xab70, 0xabe2); (0xabf0, 0xabf9); (0xac00, 0xd7a3);
   (0xd7b0, 0xd7c6); (0xd7cb, 0xd7fb); (0xf900, 0xfa6d); (0xfa70, 0xfad9); (0xfb00, 0xfb06);
   (0xfb13, 0xfb17); (0xfb1d, 0xfb1d); (0xfb1f, 0xfb28); (0xfb2a, 0xfb36); (0xfb38, 0xfb3c);
   (0xfb3e, 0xfb3e); (0xfb40, 0xfb41); (0xfb43, 0xfb44); (0xfb46, 0xfbb1); (0xfbd3, 0xfd3d);
   (0xfd50, 0xfd8f); (0xfd92, 0xfdc7); (0xfdf0, 0xfdfb); (0xfe70, 0xfe74); (0xfe76, 0xfefc);
   (0xff10, 0xff19); (0xff21, 0xff3a); (0xff41, 0xff5a); (0xff66, 0xffbe); (0xffc2, 0xffc7);
   (0xffca, 0xffcf); (0xffd2, 0xffd7); (0xffda, 0xffdc); (0x10000, 0x1000b); (0x1000d, 0x10026);
   (0x10028, 0x1003a); (0x1003c, 0x1003d); (0x1003f, 0x1004d); (0x10050, 0x1005d);
   (0x10080, 0x100fa); (0x10107, 0x10133); (0x10140, 0x10178); (0x1018a, 0x1018b);
   (0x10280, 0x1029c); (0x102a0, 0x102d0); (0x102e1, 0x102fb); (0x10300, 0x10323);
   (0x1032d, 0x1034a); (0x10350, 0x10375); (0x10380, 0x1039d); (0x103a0, 0x103c3);
   (0x103c8, 0x103cf); (0x103d1, 0x103d5); (0x10400, 0x1049d); (0x104a0, 0x104a9);
   (0x104b0, 0x104d3); (0x104d8, 0x104fb); (0x10500, 0x10527); (0x10530, 0x10563);
   (0x10570, 0x1057a); (0x1057c, 0x1058a); (0x1058c, 0x10592); (0x10594, 0x10595);
   (0x10597, 0x105a1); (0x105a3, 0x105b1); (0x105b3, 0x105b9); (0x105bb, 0x105bc);
   (0x10600, 0x10736); (0x10740, 0x10755); (0x10760, 0x10767); (0x10780, 0x10785);
   (0x10787, 0x107b0); (0x107b2, 0x107ba); (0x10800, 0x10805); (0x10808, 0x10808);
   (0x1080a, 0x10835); (0x10837, 0x10838); (0x1083c, 0x1083c); (0x1083f, 0x10855);
   (0x10858, 0x10876); (0x10879, 0x1089e); (0x108a7, 0x108af); (0x108e0, 0x108f2);
   (0x108f4, 0x108f5); (0x108fb, 0x1091b); (0x10920, 0x10939); (0x10980, 0x109b7);
   (0x109bc, 0x109cf); (0x109d2, 0x10a00); (0x10a10, 0x10a13); (0x10a15, 0x10a17);
   (0x10a19, 0x10a35); (0x10a40, 0x10a48); (0x10a60, 0x10a7e); (0x10a80, 0x10a9f);
   (0x10ac0, 0x10ac7); (0x10ac9, 0x10ae4); (0x10aeb, 0x10aef); (0x10b00, 0x10b35);
   (0x10b40, 0x10b55); (0x10b58, 0x10b72); (0x10b78, 0x10b91); (0x10ba9, 0x10baf);
   (0x10c00, 0x10c48); (0x10c80, 0x10cb2); (0x10cc0, 0x10cf2); (0x10cfa, 0x10d23);
   (0x10d30, 0x10d39); (0x10e60, 0x10e7e); (0x10e80, 0x10ea9); (0x10eb0, 0x10eb1);
   (0x10f00, 0x10f27); (0x10f30, 0x10f45); (0x10f51, 0x10f54); (0x10f70, 0x10f81);
   (0x10fb0, 0x10fcb); (0x10fe0, 0x10ff6); (0x11003, 0x11037); (0x11052, 0x1106f);
   (0x11071, 0x11072); (0x11075, 0x11075); (0x11083, 0x110af); (0x110d0, 0x110e8);
   (0x110f0, 0x110f9); (0x11103, 0x11126); (0x11136, 0x1113f); (0x11144, 0x11144);
   (0x11147, 0x11147); (0x11150, 0x11172); (0x11176, 0x11176); (0x11183, 0x111b2);
   (0x111c1, 0x111c4); (0x111d0, 0x111da); (0x111dc, 0x111dc); (0x111e1, 0x111f4);
   (0x11200, 0x11211); (0x11213, 0x1122b); (0x11280, 0x11286); (0x11288, 0x11288);
   (0x1128a, 0x1128d); (0x1128f, 0x1129d); (0x1129f, 0x112a8); (0x112b0, 0x112de);
   (0x112f0, 0x112f9); (0x11305, 0x1130c); (0x1130f, 0x11310); (0x11313, 0x11328);
   (0x1132a, 0x11330); (0x11332, 0x11333); (0x11335, 0x11339); (0x1133d, 0x1133d);
   (0x11350, 0x11350); (0x1135d, 0x11361); (0x11400, 0x11434); (0x11447, 0x1144a);
   (0x11450, 0x11459); (0x1145f, 0x11461); (0x11480, 0x114af); (0x114c4, 0x114c5);
   (0x114c7, 0x114c7); (0x114d0, 0x114d9); (0x11580, 0x115ae); (0x115d8, 0x115db);
   (0x11600, 0x1162f); (0x11644, 0x11644); (0x11650, 0x11659); (0x11680, 0x116aa);
   (0x116b8, 0x116b8); (0x116c0, 0x116c9); (0x11700, 0x1171a); (0x11730, 0x1173b);
   (0x11740, 0x11746); (0x11800, 0x1182b); (0x118a0, 0x118f2); (0x118ff, 0x11906);
   (0x11909, 0x11909); (0x1190c, 0x11913); (0x11915, 0x11916); (0x11918, 0x1192f);
   (0x1193f, 0x1193f); (0x11941, 0x11941); (0x11950, 0x11959); (0x119a0, 0x119a7);
   (0x119aa, 0x119d0); (0x119e1, 0x119e1); (0x119e3, 0x119e3); (0x11a00, 0x11a00);
   (0x11a0b, 0x11a32); (0x11a3a, 0x11a3a); (0x11a50, 0x11a50); (0x11a5c, 0x11a89);
   (0x11a9d, 0x11a9d); (0x11ab0, 0x11af8); (0x11c00, 0x11c08); (0x11c0a, 0x11c2e);
   (0x11c40, 0x11c40); (0x11c50, 0x11c6c); (0x11c72, 0x11c8f); (0x11d00, 0x11d06);
   (0x11d08, 0x11d09); (0x11d0b, 0x11d30); (0x11d46, 0x11d46); (0x11d50, 0x11d59);
   (0x11d60, 0x11d65); (0x11d67, 0x11d68); (0x11d6a, 0x11d89); (0x11d98, 0x11d98);
   (0x11da0, 0x11da9); (0x11ee0, 0x11ef2); (0x11fb0, 0x11fb0); (0x11fc0, 0x11fd4);
   (0x12000, 0x12399); (0x12400, 0x1246e); (0x12480, 0x12543); (0x12f90, 0x12ff0);
   (0x13000, 0x1342e); (0x14400, 0x14646); (0x16800, 0x16a38); (0x16a40, 0x16a5e);
   (0x16a60, 0x16a69); (0x16a70, 0x16abe); (0x16ac0, 0x16ac9); (0x16ad0, 0x16aed);
   (0x16b00, 0x16b2f); (0x16b40, 0x16b43); (0x16b50, 0x16b59); (0x16b5b, 0x16b61);
   (0x16b63, 0x16b77); (0x16b7d, 0x16b8f); (0x16e40, 0x16e96); (0x16f00, 0x16f4a);
   (0x16f50, 0x16f50); (0x16f93, 0x16f9f); (0x16fe0, 0x16fe1); (0x16fe3, 0x16fe3);
   (0x17000, 0x187f7); (0x18800, 0x18cd5); (0x18d00, 0x18d08); (0x1aff0, 0x1aff3);
   (0x1aff5, 0x1affb); (0x1affd, 0x1affe); (0x1b000, 0x1b122); (0x1b150, 0x1b152);
   (0x1b164, 0x1b167); (0x1b170, 0x1b2fb); (0x1bc00, 0x1bc6a); (0x1bc70, 0x1bc7c);
   (0x1bc80, 0x1bc88); (0x1bc90, 0x1bc99); (0x1d2e0, 0x1d2f3); (0x1d360, 0x1d378);
   (0x1d400, 0x1d454); (0x1d456, 0x1d49c); (0x1d49e, 0x1d49f); (0x1d4a2, 0x1d4a2);
   (0x1d4a5, 0x1d4a6); (0x1d4a9, 0x1d4ac); (0x1d4ae, 0x1d4b9); (0x1d4bb, 0x1d4bb);
   (0x1d4bd, 0x1d4c3); (0x1d4c5, 0x1d505); (0x1d507, 0x1d50a); (0x1d50d, 0x1d514);
   (0x1d516, 0x1d51c); (0x1d51e, 0x1d539); (0x1d53b, 0x1d53e); (0x1d540, 0x1d544);
   (0x1d546, 0x1d546); (0x1d54a, 0x1d550); (0x1d552, 0x1d6a5); (0x1d6a8, 0x1d6c0);
   (0x1d6c2, 0x1d6da); (0x1d6dc, 0x1d6fa); (0x1d6fc, 0x1d714); (0x1d716, 0x1d734);
   (0x1d736, 0x1d74e); (0x1d750, 0x1d76e); (0x1d770, 0x1d788); (0x1d78a, 0x1d7a8);
   (0x1d7aa, 0x1d7c2); (0x1d7c4, 0x1d7cb); (0x1d7ce, 0x1d7ff); (0x1df00, 0x1df1e);
   (0x1e100, 0x1e12c); (0x1e137, 0x1e13d); (0x1e140, 0x1e149); (0x1e14e, 0x1e14e);
   (0x1e290, 0x1e2ad); (0x1e2c0, 0x1e2eb); (0x1e2f0, 0x1e2f9); (0x1e7e0, 0x1e7e6);
   (0x1e7e8, 0x1e7eb); (0x1e7ed, 0x1e7ee); (0x1e7f0, 0x1e7fe); (0x1e800, 0x1e8c4);
   (0x1e8c7, 0x1e8cf); (0x1e900, 0x1e943); (0x1e94b, 0x1e94b); (0x1e950, 0x1e959);
   (0x1ec71, 0x1ecab); (0x1ecad, 0x1ecaf); (0x1ecb1, 0x1ecb4); (0x1ed01, 0x1ed2d);
   (0x1ed2f, 0x1ed3d); (0x1ee00, 0x1ee03); (0x1ee05, 0x1ee1f); (0x1ee21, 0x1ee22);
   (0x1ee24, 0x1ee24); (0x1ee27, 0x1ee27); (0x1ee29, 0x1ee32); (0x1ee34, 0x1ee37);
   (0x1ee39, 0x1ee39); (0x1ee3b, 0x1ee3b); (0x1ee42, 0x1ee42); (0x1ee47, 0x1ee47);
   (0x1ee49, 0x1ee49); (0x1ee4b, 0x1ee4b); (0x1ee4d, 0x1ee4f); (0x1ee51, 0x1ee52);
   (0x1ee54, 0x1ee54); (0x1ee57, 0x1ee57); (0x1ee59, 0x1ee59); (0x1ee5b, 0x1ee5b);
   (0x1ee5d, 0x1ee5d); (0x1ee5f, 0x1ee5f); (0x1ee61, 0x1ee62); (0x1ee64, 0x1ee64);
   (0x1ee67, 0x1ee6a); (0x1ee6c, 0x1ee72); (0x1ee74, 0x1ee77); (0x1ee79, 0x1ee7c);
   (0x1ee7e, 0x1ee7e); (0x1ee80, 0x1ee89); (0x1ee8b, 0x1ee9b); (0x1eea1, 0x1eea3);
   (0x1eea5, 0x1eea9); (0x1eeab, 0x1eebb); (0x1f100, 0x1f10c); (0x1fbf0, 0x1fbf9);
   (0x20000, 0x2a6df); (0x2a700, 0x2b738); (0x2b740, 0x2b81d); (0x2b820, 0x2cea1);
   (0x2ceb0, 0x2ebe0); (0x2f800, 0x2fa1d); (0x30000, 0x3134a) ].

Definition isspace (c : Z) : bool := in_ranges whitespace_ranges c.
Definition isdecimal (c : Z) : bool := in_ranges decimal_ranges c.
Definition isalnum (c : Z) : bool := in_ranges alnum_ranges c.
Definition isword (c : Z) : bool := isalnum c || (c =? ord "_").

(** [s.strip()]: leading and trailing whitespace removed. *)
Fixpoint lstrip (s : str) : str :=
  match s with
  | [] => []
  | c :: s' => if isspace c then lstrip s' else s
  end.

Definition strip (s : str) : str := rev (lstrip (rev (lstrip s))).

(** ** Regular expressions: the subset of [re] the repository uses *)

Inductive category : Set :=
| CATEGORY_DIGIT | CATEGORY_NOT_DIGIT
| CATEGORY_SPACE | CATEGORY_NOT_SPACE
| CATEGORY_WORD | CATEGORY_NOT_WORD.

Inductive set_item : Set :=
| LITERAL (c : Z)
| RANGE (lo hi : Z)
| CATEGORY (k : category).

(** Parsed patterns.  A literal character or a category outside brackets is
    the one-item set [In false [item]]; a sequence is a right-nested [Seq]
    ending in [Empty]. *)
Inductive regex : Set :=
| Empty
| In (negate : bool) (items : list set_item)
| Seq (a b : regex)
| Branch (a b : regex)
| MaxRepeat1 (a : regex)
| Group (n : nat) (a : regex)
| Assert (a : regex)
| AtBoundary.

Module Parse.

Definition as_ascii (c : Z) : option ascii :=
  if (0 <=? c) && (c <? 128) then Some (ascii_of_N (Z.to_N c)) else None.

Definition hex_digit (c : Z) : option Z :=
  if (ord "0" <=? c) && (c <=? ord "9") then Some (c - ord "0")
  else if (ord "a" <=? c) && (c <=? ord "f") then Some (c - ord "a" + 10)
  else if (ord "A" <=? c) && (c <=? ord "F") then Some (c - ord "A" + 10)
  else None.

(** What follows a backslash. *)
Inductive escape : Set :=
| EscItem (it : set_item)
| EscBoundary.

Definition parse_escape (p : str) : option (escape * str) :=
  match p with
  | [] => None
  | c :: p' =>
      match as_ascii c with
      | Some "w"%char => Some (EscItem (CATEGORY CATEGORY_WORD), p')
      | Some "W"%char => Some (EscItem (CATEGORY CATEGORY_NOT_WORD), p')
      | Some "d"%char => Some (EscItem (CATEGORY CATEGORY_DIGIT), p')
      | Some "D"%char => Some (EscItem (CATEGORY CATEGORY_NOT_DIGIT), p')
      | Some "s"%char => Some (EscItem (CATEGORY CATEGORY_SPACE), p')
      | Some "S"%char => Some (EscItem (CATEGORY CATEGORY_NOT_SPACE), p')
      | Some "b"%char => Some (EscBoundary, p')
      | Some "u"%char =>
          match p' with
          | h3 :: h2 :: h1 :: h0 :: p'' =>
              d3 ← hex_digit h3; d2 ← hex_digit h2;
              d1 ← hex_digit h1; d0 ← hex_digit h0;
              Some (EscItem (LITERAL (((d3 * 16 + d2) * 16 + d1) * 16 + d0)), p'')
          | _ => None
          end
      | _ => None
      end
  end.

(** One member of a bracketed set, ranges apart: a character or an
    escape. *)
Definition parse_set_atom (p : str) : option (set_item * str) :=
  match p with
  | [] => None
  | c :: p' =>
      if c =? ord "\" then
        match parse_escape p' with
        | Some (EscItem it, p'') => Some (it, p'')
        | _ => None
        end
      else Some (LITERAL c, p')
  end.

(** The members of a set up to the closing bracket.  A hyphen between two
    characters makes a range; a hyphen before the bracket is itself. *)
Fixpoint parse_set_items (fuel : nat) (p : str) : option (list set_item * str) :=
  match fuel with
  | O => None
  | S fuel' =>
      match p with
      | [] => None
      | c :: p' =>
          if c =? ord "]" then Some ([], p')
          else
            '(it, p1) ← parse_set_atom p;
            match p1 with
            | h :: c2 :: p2 =>
                if (h =? ord "-") && negb (c2 =? ord "]") then
                  '(it2, p3) ← parse_set_atom (c2 :: p2);
                  match it, it2 with
                  | LITERAL lo, LITERAL hi =>
                      if lo <=? hi then
                        '(its, p4) ← parse_set_items fuel' p3;
                        Some (RANGE lo hi :: its, p4)
                      else None
                  | _, _ => None
                  end
                else
                  '(its, p4) ← parse_set_items fuel' p1;
                  Some (it :: its, p4)
            | _ =>
                '(its, p4) ← parse_set_items fuel' p1;
                Some (it :: its, p4)
            end
      end
  end.

Definition parse_set (p : str) : option (regex * str) :=
  let '(negate, p0) :=
    match p with
    | c :: p' => if c =? ord "^" then (true, p') else (false, p)
    | [] => (false, p)
    end in
  '(its, p1) ← parse_set_items (S (length p0)) p0;
  match its with
  | [] => None
  | _ => Some (In negate its, p1)
  end.

(** A trailing [+]; the other repetition operators are not in the
    subset. *)
Definition parse_postfix (a : regex) (p : str) : option (regex * str) :=
  match p with
  | c :: p' =>
      match as_ascii c with
      | Some "+"%char =>
          match p' with
          | c' :: _ =>
              match as_ascii c' with
              | Some "+"%char | Some "?"%char | Some "*"%char | Some "{"%char => None
              | _ => Some (MaxRepeat1 a, p')
              end
          | [] => Some (MaxRepeat1 a, p')
          end
      | Some "*"%char | Some "?"%char | Some "{"%char => None
      | _ => Some (a, p)
      end
  | [] => Some (a, p)
  end.

(** Alternatives, sequences and atoms; [g] is the number the next
    capturing group gets (groups are numbered by their opening
    parenthesis). *)
Fixpoint parse_alt (fuel : nat) (p : str) (g : nat) : option (regex * str * nat) :=
  match fuel with
  | O => None
  | S fuel' =>
      '(a, p1, g1) ← parse_seq fuel' p g;
      match p1 with
      | c :: p2 =>
          if c =? ord "|" then
            '(b, p3, g3) ← parse_alt fuel' p2 g1;
            Some (Branch a b, p3, g3)
          else Some (a, p1, g1)
      | [] => Some (a, p1, g1)
      end
  end
with parse_seq (fuel : nat) (p : str) (g : nat) : option (regex * str * nat) :=
  match fuel with
  | O => None
  | S fuel' =>
      match p with
      | [] => Some (Empty, p, g)
      | c :: _ =>
          if (c =? ord "|") || (c =? ord ")") then Some (Empty, p, g)
          else
            '(a, p1, g1) ← parse_atom fuel' p g;
            '(b, p2, g2) ← parse_seq fuel' p1 g1;
            Some (Seq a b, p2, g2)
      end
  end
with parse_atom (fuel : nat) (p : str) (g : nat) : option (regex * str * nat) :=
  match fuel with
  | O => None
  | S fuel' =>
      match p with
      | [] => None
      | c :: p' =>
          '(a, p1, g1) ←
            match as_ascii c with
            | Some "("%char =>
                match p' with
                | q :: e :: p'' =>
                    if (q =? ord "?") && (e =? ord "=") then
                      '(a, p1, g1) ← parse_alt fuel' p'' g;
                      match p1 with
                      | c1 :: p2 => if c1 =? ord ")" then Some (Assert a, p2, g1) else None
                      | [] => None
                      end
                    else if q =? ord "?" then None
                    else
                      '(a, p1, g1) ← parse_alt fuel' p' (S g);
                      match p1 with
                      | c1 :: p2 => if c1 =? ord ")" then Some (Group g a, p2, g1) else None
                      | [] => None
                      end
                | _ => None
                end
            | Some "["%char => '(a, p1) ← parse_set p'; Some (a, p1, g)
            | Some "\"%char =>
                match parse_escape p' with
                | Some (EscItem it, p1) => Some (In false [it], p1, g)
                | Some (EscBoundary, p1) => Some (AtBoundary, p1, g)
                | None => None
                end
            | Some "."%char | Some "^"%char | Some "$"%char | Some "*"%char
            | Some "+"%char | Some "?"%char | Some "{"%char | Some ")"%char
            | Some "|"%char => None
            | _ => Some (In false [LITERAL c], p', g)
            end;
          '(a', p2) ← parse_postfix a p1;
          Some (a', p2, g1)
      end
  end.

End Parse.

(** [re.compile(pattern)]. *)
Definition re_compile (pattern : str) : result regex :=
  match Parse.parse_alt (3 * length pattern + 3) pattern 1 with
  | Some (r, [], _) => Return r
  | _ => Raise re_error
  end.

(** *** Matching

    A backtracking matcher in continuation-passing style, following the
    order in which [sre] explores alternatives: the first branch first, a
    repetition as long as it can be (greedy) before it gives characters
    back. *)

(** A position in the subject string and the spans of the groups matched
    so far (most recent first). *)
Record mstate : Set := MState {
  pos : nat;
  marks : list (nat * (nat * nat))
}.

Definition advance (st : mstate) : mstate :=
  {| pos := S (pos st); marks := marks st |}.

Definition set_mark (n : nat) (span : nat * nat) (st : mstate) : mstate :=
  {| pos := pos st; marks := (n, span) :: marks st |}.

Definition category_matches (k : category) (c : Z) : bool :=
  match k with
  | CATEGORY_DIGIT => isdecimal c
  | CATEGORY_NOT_DIGIT => negb (isdecimal c)
  | CATEGORY_SPACE => isspace c
  | CATEGORY_NOT_SPACE => negb (isspace c)
  | CATEGORY_WORD => isword c
  | CATEGORY_NOT_WORD => negb (isword c)
  end.

Definition item_matches (it : set_item) (c : Z) : bool :=
  match it with
  | LITERAL x => c =? x
  | RANGE lo hi => (lo <=? c) && (c <=? hi)
  | CATEGORY k => category_matches k c
  end.

Definition in_set (negate : bool) (items : list set_item) (c : Z) : bool :=
  xorb negate (existsb (fun it => item_matches it c) items).

(** [\b] at index [i] of [s]: exactly one of the characters before and after
    the position is a word character (a missing neighbour counts as a
    non-word character). *)
Definition at_boundary (s : str) (i : nat) : bool :=
  let before :=
    match i with
    | O => false
    | S j => from_option isword false (s !! j)
    end in
  let after := from_option isword false (s !! i) in
  xorb before after.

(** One or more greedy iterations of [step].  An iteration that consumed
    nothing is not repeated. *)
Fixpoint repeat_loop {R : Type}
    (step : mstate -> (mstate -> option R) -> option R)
    (k : mstate -> option R) (fuel : nat) (st : mstate) : option R :=
  step st (fun st' =>
    match fuel with
    | O => k st'
    | S fuel' =>
        if (pos st <? pos st')%nat then
          match repeat_loop step k fuel' st' with
          | Some x => Some x
          | None => k st'
          end
        else k st'
    end).

Fixpoint exec (R : Type) (s : str) (r : regex) (st : mstate)
    (k : mstate -> option R) {struct r} : option R :=
  match r with
  | Empty => k st
  | In negate items =>
      match s !! pos st with
      | Some c => if in_set negate items c then k (advance st) else None
      | None => None
      end
  | Seq a b => exec R s a st (fun st' => exec R s b st' k)
  | Branch a b =>
      match exec R s a st k with
      | Some x => Some x
      | None => exec R s b st k
      end
  | MaxRepeat1 a => repeat_loop (exec R s a) k (length s - pos st) st
  | Group n a => exec R s a st (fun st' => k (set_mark n (pos st, pos st') st'))
  | Assert a =>
      match exec mstate s a st Some with
      | Some st' => k {| pos := pos st; marks := marks st' |}
      | None => None
      end
  | AtBoundary => if at_boundary s (pos st) then k st else None
  end.

Arguments exec {R} s r st k.

(** A match: where it starts and the state at its end. *)
Record match_object : Set := Match {
  m_start : nat;
  m_state : mstate
}.

Definition m_end (m : match_object) : nat := pos (m_state m).

Definition match_at (r : regex) (s : str) (i : nat) : option match_object :=
  Match i <$> exec s r (MState i []) Some.

(** The leftmost match starting at [i], [i + 1], ..., [i + fuel]. *)
Fixpoint search_from (r : regex) (s : str) (fuel : nat) (i : nat)
  : option match_object :=
  match match_at r s i with
  | Some m => Some m
  | None =>
      match fuel with
      | O => None
      | S fuel' => search_from r s fuel' (S i)
      end
  end.

Definition search (r : regex) (s : str) : option match_object :=
  search_from r s (length s) 0.

(** The continuation of [fullmatch]: the match has to end with the string. *)
Definition at_end (s : str) (st : mstate) : option mstate :=
  if (pos st =? length s)%nat then Some st else None.

Definition fullmatch (r : regex) (s : str) : option match_object :=
  Match 0 <$> exec s r (MState 0 []) (at_end s).

(** The successive non-overlapping matches, left to right: the scan for the
    next match resumes where the last one ended, one character further
    after an empty match. *)
Fixpoint finditer_from (r : regex) (s : str) (fuel : nat) (i : nat)
  : list match_object :=
  match fuel with
  | O => []
  | S fuel' =>
      if (length s <? i)%nat then []
      else
        match search_from r s (length s - i) i with
        | None => []
        | Some m =>
            let next := if (m_end m =? m_start m)%nat then S (m_end m) else m_end m in
            m :: finditer_from r s fuel' next
        end
  end.

Definition finditer (r : regex) (s : str) : list match_object :=
  finditer_from r s (length s + 2) 0.

(** [m.group(0)] and [m.group(n)]; a group that took no part in the match
    reads as the empty string, as in the results of [findall]. *)
Definition span_text (s : str) (span : nat * nat) : str :=
  take (snd span - fst span) (drop (fst span) s).

Definition whole (s : str) (m : match_object) : str :=
  span_text s (m_start m, m_end m).

Definition mark_of (n : nat) (st : mstate) : option (nat * nat) :=
  (fun e => snd (snd e)) <$> list_find (fun e => fst e = n) (marks st).

Definition group (s : str) (m : match_object) (n : nat) : str :=
  from_option (span_text s) [] (mark_of n (m_state m)).

Fixpoint ngroups (r : regex) : nat :=
  match r with
  | Empty | In _ _ | AtBoundary => 0
  | Seq a b | Branch a b => ngroups a + ngroups b
  | MaxRepeat1 a | Assert a => ngroups a
  | Group _ a => S (ngroups a)
  end.

(** An element of the list [re.findall] returns: the whole match for a
    pattern without groups, the group for a pattern with one, the tuple of
    all groups otherwise. *)
Inductive findall_item : Set :=
| ItemStr (s : str)
| ItemTuple (t : list str).

Definition findall_item_of (r : regex) (s : str) (m : match_object) : findall_item :=
  match ngroups r with
  | O => ItemStr (whole s m)
  | 1%nat => ItemStr (group s m 1)
  | n => ItemTuple (group s m <$> seq 1 n)
  end.

(** [item[i]]. *)
Definition item_getitem (it : findall_item) (i : Z) : result str :=
  match it with
  | ItemStr s => c ← getitem s i; Return [c]
  | ItemTuple t => getitem t i
  end.

(** *** The functions of module [re] *)

(** [flags=re.IGNORECASE] changes a match only through the cased characters
    written in the pattern (literals and range bounds); categories are not
    affected.  Patterns are accepted under the flag when every character
    written in them is known to be caseless: an ASCII non-letter or a
    General Punctuation character. *)
Inductive flag : Set := IGNORECASE.

Definition caseless (c : Z) : bool :=
  ((0 <=? c) && (c <? 128)
   && negb ((ord "A" <=? c) && (c <=? ord "Z"))
   && negb ((ord "a" <=? c) && (c <=? ord "z")))
  || ((0x2000 <=? c) && (c <=? 0x206f)).

Definition item_caseless (it : set_item) : bool :=
  match it with
  | LITERAL c => caseless c
  | RANGE lo hi => false
  | CATEGORY _ => true
  end.

Fixpoint regex_caseless (r : regex) : bool :=
  match r with
  | Empty | AtBoundary => true
  | In _ items => forallb item_caseless items
  | Seq a b | Branch a b => regex_caseless a && regex_caseless b
  | MaxRepeat1 a | Group _ a | Assert a => regex_caseless a
  end.

Definition re_compile_flags (pattern : str) (flags : list flag) : result regex :=
  r ← re_compile pattern;
  match flags with
  | [] => Return r
  | _ => if regex_caseless r then Return r else Raise re_error
  end.

Definition is_match (m : option match_object) : bool :=
  match m with
  | Some _ => true
  | None => false
  end.

Definition re_search (pattern string : str) : result (option match_object) :=
  r ← re_compile pattern; Return (search r string).

Definition re_fullmatch (pattern string : str) (flags : list flag)
  : result (option match_object) :=
  r ← re_compile_flags pattern flags; Return (fullmatch r string).

Definition re_findall (pattern string : str) : result (list findall_item) :=
  r ← re_compile pattern; Return (findall_item_of r string <$> finditer r string).

(** [[f(x) for x in xs]] for an [f] that may raise. *)
Fixpoint comprehension {A B : Type} (f : A -> result B) (xs : list A) : result (list B) :=
  match xs with
  | [] => Return []
  | x :: xs' => y ← f x; ys ← comprehension f xs'; Return (y :: ys)
  end.

(** ** plaintext.py *)

Module PlainText.

Definition word_split_pattern_string : str := py "(\b([^\W_]|[\u2019'-])+)\b".
Definition nl_word_pattern_string : str := py "((?=[^\d_])[\w\u2019'-])+".
Definition space_pattern_string : str := py "[\s\u00b7\u2027\u3000\u30fb\uff65]".

(** The test of the deletion loop:
    [len(w) < 2 or not re.fullmatch(nl_word_pattern_string, w, flags=re.IGNORECASE)]. *)
Definition rejected (w : str) : result bool :=
  if len w <? 2 then Return true
  else m ← re_fullmatch nl_word_pattern_string w [IGNORECASE]; Return (negb (is_match m)).

(** One pass of the body of [for i in reversed(range(len(nl_words)))]; the
    list is the one being mutated. *)
Definition remove_step (nl_words : list str) (i : Z) : result (list str) :=
  w ← getitem nl_words i;
  reject ← rejected w;
  if reject : bool then x ← getitem nl_words i; list_remove x nl_words
  else Return nl_words.

Definition get_natural_language_words (text : str) : result (list str) :=
  space ← re_search space_pattern_string text;
  if negb (is_match space) && contains (ord "/") text then Return []
  else
    found ← re_findall word_split_pattern_string text;
    nl_words ← comprehension (fun nl_word => item_getitem nl_word 0) found;
    for_each remove_step (rev (range 0 (len nl_words))) nl_words.

Definition tokenize_word (word : str) (ngram_size : Z) : list str :=
  let word := py " " ++ word ++ py " " in
  foldl (fun tokens i =>
           if truthy (strip (slice word i (i + ngram_size)))
           then tokens ++ [slice word i (i + ngram_size)]
           else tokens)
        [] (range 0 (len word - ngram_size + 1)).

(** ['[A-Za-z...]'], the Latvian alphabet: the eleven letter pairs after
    [z] are A, C, E, G, I, K, L, N, S, U, Z with their diacritics
    (U+0100 ... U+017E). *)
Definition lv_charset : str :=
  py "[A-Za-z"
  ++ [0x100; 0x101; 0x10c; 0x10d; 0x112; 0x113; 0x122; 0x123; 0x12a; 0x12b;
      0x136; 0x137; 0x13b; 0x13c; 0x145; 0x146; 0x160; 0x161; 0x16a; 0x16b;
      0x17d; 0x17e]
  ++ py "]".

Definition get_language_charset (language : str) : str :=
  let charset : gmap str str := <[py "lv" := lv_charset]> ∅ in
  match charset !! language with
  | Some chars => chars
  | None => []
  end.

Definition get_language_exclude_charset (language : str) : str :=
  let charset : gmap str str := <[py "lv" := py "[QqWwXxYy]"]> ∅ in
  match charset !! language with
  | Some chars => chars
  | None => []
  end.

(** The condition under which [is_valid_language_word] returns [False] at
    [char]: [(valid_chars and not re.search(valid_chars, char)) or
    (invalid_chars and re.search(invalid_chars, char))]. *)
Definition char_fails (valid_chars invalid_chars : str) (char : Z) : result bool :=
  outside ←
    (if truthy valid_chars
     then m ← re_search valid_chars [char]; Return (negb (is_match m))
     else Return false);
  if outside : bool then Return true
  else if truthy invalid_chars
       then m ← re_search invalid_chars [char]; Return (is_match m)
       else Return false.

Fixpoint scan_chars (valid_chars invalid_chars : str) (chars : str) : result bool :=
  match chars with
  | [] => Return true
  | char :: chars' =>
      bad ← char_fails valid_chars invalid_chars char;
      if bad : bool then Return false
      else scan_chars valid_chars invalid_chars chars'
  end.

Definition is_valid_language_word (word language : str) : result bool :=
  let valid_chars := get_language_charset language in
  let invalid_chars := get_language_exclude_charset language in
  scan_chars valid_chars invalid_chars (strip word).

(** [try: ngram_dict[i][token] += 1 / except KeyError: ngram_dict[i][token] = 1]. *)
Definition count_token (i : Z) (ngram_dict : gmap Z (gmap str Z)) (token : str)
  : result (gmap Z (gmap str Z)) :=
  match ngram_dict !! i with
  | None => Raise KeyError
  | Some counts =>
      let n := match counts !! token with
               | Some n => n + 1
               | None => 1
               end in
      Return (<[i := <[token := n]> counts]> ngram_dict)
  end.

Definition count_word (language : str) (i : Z) (ngram_dict : gmap Z (gmap str Z))
    (nlw : str) : result (gmap Z (gmap str Z)) :=
  valid ← is_valid_language_word nlw language;
  if valid : bool then for_each (count_token i) (tokenize_word nlw i) ngram_dict
  else Return ngram_dict.

Definition count_line (language : str) (ngram_dict : gmap Z (gmap str Z))
    (line : str) : result (gmap Z (gmap str Z)) :=
  nl_words ← get_natural_language_words line;
  for_each (fun d i => for_each (count_word language i) nl_words d)
           (range 1 5) ngram_dict.

Definition empty_ngram_dict : gmap Z (gmap str Z) :=
  foldl (fun d i => <[i := ∅]> d) ∅ (range 1 5).

(** The argument of [text.split] is the three-character string written
    ['\r?\n']: carriage return, question mark, line feed. *)
Definition extract_char_ngrams (text language : str) : result (gmap Z (gmap str Z)) :=
  lines ← split text [13; ord "?"; 10];
  for_each (count_line language) lines empty_ngram_dict.

End PlainText.

(** ** measurements.py *)

Module measurements.

(** [a / b] on integers: [ZeroDivisionError] for a zero divisor, else the
    quotient (in lowest terms). *)
Definition truediv (a b : Z) : result Q :=
  if b =? 0 then Raise ZeroDivisionError
  else Return (Qred (Qmake (a * Z.sgn b) (Z.to_pos (Z.abs b)))).

(** The two counters of [calculate_precision] after one benchmark pair. *)
Definition precision_step (aligned_pairs : gmap str str) (counters : Z * Z)
    (pair : str * str) : Z * Z :=
  let '(aligned_from_benchmark, aligned_correctly) := counters in
  let '(src, trg) := pair in
  match aligned_pairs !! src with
  | Some aligned_trg =>
      (aligned_from_benchmark + 1,
       if decide (trg = aligned_trg) then aligned_correctly + 1 else aligned_correctly)
  | None =>
      if bool_decide (trg ∈ (map_to_list aligned_pairs).*2)
      then (aligned_from_benchmark + 1, aligned_correctly)
      else (aligned_from_benchmark, aligned_correctly)
  end.

Definition calculate_precision (benchmark_pairs aligned_pairs : gmap str str) : result Q :=
  let '(aligned_from_benchmark, aligned_correctly) :=
    foldl (precision_step aligned_pairs) (0, 0) (map_to_list benchmark_pairs) in
  truediv aligned_correctly aligned_from_benchmark.

Definition recall_step (aligned_pairs : gmap str str) (aligned_correctly : Z)
    (pair : str * str) : Z :=
  let '(src, trg) := pair in
  match aligned_pairs !! src with
  | Some aligned_trg =>
      if decide (trg = aligned_trg) then aligned_correctly + 1 else aligned_correctly
  | None => aligned_correctly
  end.

Definition calculate_recall (benchmark_pairs aligned_pairs : gmap str str) : result Q :=
  let aligned_correctly :=
    foldl (recall_step aligned_pairs) 0 (map_to_list benchmark_pairs) in
  truediv aligned_correctly (Z.of_nat (size benchmark_pairs)).

End measurements.

(** ** convert_dir_to_char_ngrams.py *)

Module convert_dir_to_char_ngrams.

(** The names bound in the body of [class PlainText]. *)
Definition PlainText_attributes : list string :=
  [ "word_split_pattern_string"; "nl_word_pattern_string"; "space_pattern_string";
    "get_natural_language_words"; "tokenize_word"; "extract_char_ngrams";
    "is_valid_language_word"; "get_language_charset";
    "get_language_exclude_charset"; "build_language_model_ch" ]%string.

(** [PlainText.<name>(line, ngram_length) + '\n'].  The attribute reference
    raises [AttributeError] for a name the class does not bind.  A bound
    one does not help: the class variables are strings and cannot be
    called, four methods do not take two arguments, and
    [tokenize_word], [extract_char_ngrams] and [is_valid_language_word]
    return a list, a dictionary and a boolean, to which a string cannot
    be added. *)
Definition call_and_add_newline (name : string) (line : str) (ngram_length : Z)
  : result str :=
  if bool_decide (name ∈ PlainText_attributes) then Raise TypeError
  else Raise AttributeError.

(** The lines of a text file as iteration over the file object yields
    them: each ends with its line feed, the last one possibly without. *)
Fixpoint lines_from (line : str) (content : str) : list str :=
  match content with
  | [] => match line with
          | [] => []
          | _ => [rev line]
          end
  | c :: content' =>
      if c =? 10 then rev (c :: line) :: lines_from [] content'
      else lines_from (c :: line) content'
  end.

Definition readlines (content : str) : list str := lines_from [] content.

(** A directory entry as [os.scandir] reports it. *)
Inductive dir_entry : Set :=
| RegularFile (content : str)
| Other.

(** The body of [for line in in_file], threading the destination
    directory (file name to content); an exception leaves what has been
    written. *)
Fixpoint convert_lines (name : str) (ngram_length : Z) (lines : list str)
    (dest_dir : gmap str str) : result unit * gmap str str :=
  match lines with
  | [] => (Return (), dest_dir)
  | line :: lines' =>
      match call_and_add_newline "string_to_char_ngram_string" (strip line)
              ngram_length with
      | Raise e => (Raise e, dest_dir)
      | Return written =>
          convert_lines name ngram_length lines'
            (alter (fun content => content ++ written) name dest_dir)
      end
  end.

(** [main(src_dir, dest_dir, ngram_length)].  Opening the output file for
    writing creates or empties it before the first line is read. *)
Fixpoint main (src_dir : list (str * dir_entry)) (dest_dir : gmap str str)
    (ngram_length : Z) : result unit * gmap str str :=
  match src_dir with
  | [] => (Return (), dest_dir)
  | (name, RegularFile content) :: src_dir' =>
      match convert_lines name ngram_length (readlines content)
              (<[name := []]> dest_dir) with
      | (Return _, dest_dir') => main src_dir' dest_dir' ngram_length
      | (Raise e, dest_dir') => (Raise e, dest_dir')
      end
  | (_, Other) :: src_dir' => main src_dir' dest_dir ngram_length
  end.

End convert_dir_to_char_ngrams.

(** * The vocabulary of the statements *)

Import PlainText.
Import measurements.
Import convert_dir_to_char_ngrams.

(** ** The patterns of [PlainText], parsed *)

Definition word_split_char : regex :=
  Group 2
    (Branch (Seq (In true [CATEGORY CATEGORY_NOT_WORD; LITERAL (ord "_")]) Empty)
            (Seq (In false [LITERAL 0x2019; LITERAL (ord "'"); LITERAL (ord "-")]) Empty)).

Definition word_split_re : regex :=
  Seq (Group 1 (Seq AtBoundary (Seq (MaxRepeat1 word_split_char) Empty)))
      (Seq AtBoundary Empty).

Definition nl_word_char : regex :=
  Group 1
    (Seq (Assert (Seq (In true [CATEGORY CATEGORY_DIGIT; LITERAL (ord "_")]) Empty))
       (Seq (In false [CATEGORY CATEGORY_WORD; LITERAL 0x2019; LITERAL (ord "'");
                       LITERAL (ord "-")])
          Empty)).

Definition nl_word_re : regex := Seq (MaxRepeat1 nl_word_char) Empty.

Definition space_items : list set_item :=
  [CATEGORY CATEGORY_SPACE; LITERAL 0xb7; LITERAL 0x2027; LITERAL 0x3000;
   LITERAL 0x30fb; LITERAL 0xff65].

Definition space_re : regex := Seq (In false space_items) Empty.

(** ** A declarative reading of patterns *)

(** [matches s r st st']: pattern [r] can match the subject [s] from state
    [st] to state [st']. *)
Inductive matches (s : str) : regex -> mstate -> mstate -> Prop :=
| matches_Empty st :
    matches s Empty st st
| matches_In negate items st c :
    s !! pos st = Some c -> in_set negate items c = true ->
    matches s (In negate items) st (advance st)
| matches_Seq a b st st1 st2 :
    matches s a st st1 -> matches s b st1 st2 -> matches s (Seq a b) st st2
| matches_Branch_l a b st st1 :
    matches s a st st1 -> matches s (Branch a b) st st1
| matches_Branch_r a b st st1 :
    matches s b st st1 -> matches s (Branch a b) st st1
| matches_MaxRepeat1_once a st st1 :
    matches s a st st1 -> matches s (MaxRepeat1 a) st st1
| matches_MaxRepeat1_more a st st1 st2 :
    matches s a st st1 -> matches s (MaxRepeat1 a) st1 st2 ->
    matches s (MaxRepeat1 a) st st2
| matches_Group n a st st1 :
    matches s a st st1 ->
    matches s (Group n a) st (set_mark n (pos st, pos st1) st1)
| matches_Assert a st st1 :
    matches s a st st1 ->
    matches s (Assert a) st {| pos := pos st; marks := marks st1 |}
| matches_AtBoundary st :
    at_boundary s (pos st) = true -> matches s AtBoundary st st.

(** What a successful run of a matching step tells: the continuation was
    entered at the end of some match. *)
Definition sound_step {R : Type} (s : str) (r : regex)
    (step : mstate -> (mstate -> option R) -> option R) : Prop :=
  forall st k x, step st k = Some x ->
    exists st', matches s r st st' /\ k st' = Some x.

Ltac invert_matches :=
  repeat match goal with
    | H : matches _ Empty _ _ |- _ => inversion H; clear H; subst
    | H : matches _ (In _ _) _ _ |- _ => inversion H; clear H; subst
    | H : matches _ (Seq _ _) _ _ |- _ => inversion H; clear H; subst
    | H : matches _ (Branch _ _) _ _ |- _ => inversion H; clear H; subst
    | H : matches _ (Group _ _) _ _ |- _ => inversion H; clear H; subst
    | H : matches _ (Assert _) _ _ |- _ => inversion H; clear H; subst
    | H : matches _ AtBoundary _ _ |- _ => inversion H; clear H; subst
    end.

(** ** The steps of [get_natural_language_words] as pure functions *)

(** A character the URL guard takes for a space: whitespace or one of
    U+00B7, U+2027, U+3000, U+30FB, U+FF65. *)
Definition space_like (c : Z) : bool :=
  isspace c || existsb (Z.eqb c) [0xb7; 0x2027; 0x3000; 0x30fb; 0xff65].

(** The guard of the first statement: no space anywhere and a slash. *)
Definition url_like (text : str) : bool :=
  negb (is_match (search space_re text)) && contains (ord "/") text.

(** The list the comprehension over [re.findall] builds. *)
Definition candidate_words (text : str) : list str :=
  (fun m => group text m 1) <$> finditer word_split_re text.

(** The character class of [nl_word_pattern_string]: not a digit, not the
    underscore, and a word character or one of U+2019, ['] and [-]. *)
Definition natural_char (c : Z) : bool :=
  negb (isdecimal c || (c =? ord "_"))
  && (isword c || ((c =? 0x2019) || ((c =? ord "'") || (c =? ord "-")))).

(** The candidates the deletion loop is meant to keep. *)
Definition natural (w : str) : bool :=
  (2 <=? len w) && is_match (fullmatch nl_word_re w).

Definition survives (text w : str) : bool := negb (url_like text) && natural w.

(** A character the look-ahead [(?=[^\d_])] lets through: not a digit (a
    character of the class [\d], the decimal digits of any script) and not
    the underscore. *)
Definition no_digit_no_underscore (c : Z) : Prop :=
  isdecimal c = false /\ c <> ord "_".

(** ** Alignment scores *)

(** The benchmark pairs [{"a": "x", "b": "y"}] and the aligned pairs
    [{"a": "x", "b": "z"}]. *)
Definition benchmark_example : gmap str str :=
  <[py "b" := py "y"]> (<[py "a" := py "x"]> ∅).

Definition aligned_example : gmap str str :=
  <[py "b" := py "z"]> (<[py "a" := py "x"]> ∅).

(** A benchmark pair is counted by [calculate_precision] when its source is
    an aligned source or its target an aligned target. *)
Definition counted (aligned_pairs : gmap str str) (pair : str * str) : Prop :=
  is_Some (aligned_pairs !! pair.1)
  \/ exists src, aligned_pairs !! src = Some pair.2.

(** ** The lines of a text *)

(** The specification's reading of the split: a line ends at each line
    feed, a carriage return just before it belonging to the line end. *)
Fixpoint lines_of (line : str) (text : str) : list str :=
  match text with
  | [] => [rev line]
  | c :: text' =>
      if c =? 10 then
        rev (match line with
             | 13 :: line' => line'
             | _ => line
             end) :: lines_of [] text'
      else lines_of (c :: line) text'
  end.

(** The specification's reading of [extract_char_ngrams]: the counting of
    the code, applied line by line. *)
Definition extract_char_ngrams_by_line (text language : str)
  : result (gmap Z (gmap str Z)) :=
  for_each (count_line language) (lines_of [] text) empty_ngram_dict.

(** [ngram_dict[i].get(token)] of a result. *)
Definition count_of (ngrams : result (gmap Z (gmap str Z))) (i : Z) (token : str)
  : result (option Z) :=
  d ← ngrams; Return (counts ← d !! i; counts !! token).

(** * More of the code *)

(** ** measurements.py: reading the corpora *)

(** [load_sentence_pairs(src_filepath, trg_filepath)], given the decoded
    contents of the two files: the lines are paired in order up to the end
    of the shorter file, and a later pair replaces an earlier one with the
    same stripped source line. *)
Definition load_sentence_pairs (src_file trg_file : str) : gmap str str :=
  foldl (fun sent_pairs '(src_line, trg_line) =>
           <[strip src_line := strip trg_line]> sent_pairs)
        ∅ (zip (readlines src_file) (readlines trg_file)).

(** ** vocabulary.py *)

(** [str.lower()] depends on the case mappings of the Unicode character
    database and on the context of a character (the final sigma); it is
    taken as the parameter [lower] of the functions below. *)




(** ** Vocabulary of the further properties *)

(** The two character sets of the language table for ['lv'], parsed. *)
Definition lv_charset_items : list set_item :=
  [RANGE (ord "A") (ord "Z"); RANGE (ord "a") (ord "z");
   LITERAL 0x100; LITERAL 0x101; LITERAL 0x10c; LITERAL 0x10d; LITERAL 0x112;
   LITERAL 0x113; LITERAL 0x122; LITERAL 0x123; LITERAL 0x12a; LITERAL 0x12b;
   LITERAL 0x136; LITERAL 0x137; LITERAL 0x13b; LITERAL 0x13c; LITERAL 0x145;
   LITERAL 0x146; LITERAL 0x160; LITERAL 0x161; LITERAL 0x16a; LITERAL 0x16b;
   LITERAL 0x17d; LITERAL 0x17e].

Definition lv_exclude_items : list set_item :=
  [LITERAL (ord "Q"); LITERAL (ord "q"); LITERAL (ord "W"); LITERAL (ord "w");
   LITERAL (ord "X"); LITERAL (ord "x"); LITERAL (ord "Y"); LITERAL (ord "y")].

(** A letter of the Latvian alphabet as the table has it: the 26 letters of
    the basic Latin alphabet in both cases, and the 22 letters with
    diacritics, without Q, W, X and Y. *)
Definition latvian_letter (c : Z) : bool :=
  in_set false lv_charset_items c && negb (in_set false lv_exclude_items c).

(** What [extract_char_ngrams] keeps true of its dictionary: the keys are
    the four n-gram lengths, every token filed under a length has that
    length, and every count is positive. *)
Definition ngram_dict_ok (ngram_dict : gmap Z (gmap str Z)) : Prop :=
  dom ngram_dict = {[1; 2; 3; 4]}
  /\ forall i counts token n,
       ngram_dict !! i = Some counts -> counts !! token = Some n ->
       len token = i /\ 1 <= n.

(** The sentence pairs of two parallel files, line by line, stripped. *)
Definition sentence_lines (src_file trg_file : str) : list (str * str) :=
  (fun lines => (strip lines.1, strip lines.2))
    <$> zip (readlines src_file) (readlines trg_file).

(** [s.rstrip()]. *)
Definition rstrip (s : str) : str := rev (lstrip (rev s)).

(** The words [get_natural_language_words] returns, as a pure function. *)
Definition words_of (text : str) : list str :=
  List.filter (survives text) (candidate_words text).




(** [" ".join(words)]. *)
Fixpoint join_spaces (words : list str) : str :=
  match words with
  | [] => []
  | w :: words' =>
      match words' with
      | [] => w
      | _ :: _ => w ++ 32 :: join_spaces words'
      end
  end.

(** The state of the matcher after [n] more characters of a word: each
    iteration of the second group of [word_split_pattern_string] records its
    character. *)
Fixpoint run_state (st : mstate) (n : nat) : mstate :=
  match n with
  | O => st
  | S n' => run_state (set_mark 2 (pos st, S (pos st)) (advance st)) n'
  end.

(** The sum of [f] over a list. *)
Definition zsum {A : Type} (f : A -> Z) (l : list A) : Z :=
  foldr (fun x acc => f x + acc) 0 l.

(** The sum of the counts of a dictionary of n-grams, and that of the
    dictionary filed under length [i]. *)
Definition total_count (counts : gmap str Z) : Z :=
  map_fold (fun _ n acc => n + acc) 0 counts.

Definition total_under (i : Z) (ngram_dict : gmap Z (gmap str Z)) : Z :=
  total_count (default ∅ (ngram_dict !! i)).

(** [is_valid_language_word] as a test. *)
Definition valid_word (language w : str) : bool :=
  match is_valid_language_word w language with
  | Return valid => valid
  | Raise _ => false
  end.

(** The words [extract_char_ngrams] counts: those of the pieces [split]
    cuts the text into, valid for the language. *)
Definition counted_words (language text : str) : list str :=
  List.filter (valid_word language)
    (concat (words_of <$> split_from [13; ord "?"; 10] O [] text)).

(** * Properties *)

(** ** The patterns compile *)

Lemma word_split_pattern_compiles :
  re_compile word_split_pattern_string = Return word_split_re.
Proof. vm_compute. reflexivity. Qed.

Lemma nl_word_pattern_compiles :
  re_compile_flags nl_word_pattern_string [IGNORECASE] = Return nl_word_re.
Proof. vm_compute. reflexivity. Qed.

Lemma space_pattern_compiles :
  re_compile space_pattern_string = Return space_re.
Proof. vm_compute. reflexivity. Qed.

(** ** [tokenize_word] *)

Lemma length_range (a b : Z) : length (range a b) = Z.to_nat (b - a).
Proof. unfold range. rewrite length_fmap, length_seq. reflexivity. Qed.

Lemma length_filter_le {A : Type} (keep : A -> bool) (xs : list A) :
  (length (List.filter keep xs) <= length xs)%nat.
Proof. induction xs as [|x xs IH]; simpl; [lia|]. destruct (keep x); simpl; lia. Qed.

Lemma filter_all {A : Type} (keep : A -> bool) (l : list A) :
  Forall (fun w => keep w = true) l -> List.filter keep l = l.
Proof. induction 1 as [|w l Hw _ IH]; simpl; [done|]. by rewrite Hw, IH. Qed.

(** The loop [for i in indices: if keep(f(i)): tokens.append(f(i))]. *)
Lemma foldl_append_filter {A B : Type} (f : A -> B) (keep : B -> bool)
    (indices : list A) (tokens : list B) :
  foldl (fun tokens i => if keep (f i) then tokens ++ [f i] else tokens) tokens indices
  = tokens ++ List.filter keep (f <$> indices).
Proof.
  revert tokens. induction indices as [|i indices IH]; intros tokens; simpl.
  - by rewrite app_nil_r.
  - rewrite IH. destruct (keep (f i)); [|done]. by rewrite <- app_assoc.
Qed.

(** The tokens are the windows with a non-blank content, in order. *)
Lemma tokenize_word_windows (word : str) (ngram_size : Z) :
  let padded := py " " ++ word ++ py " " in
  tokenize_word word ngram_size =
  List.filter (fun t => truthy (strip t))
    ((fun i => slice padded i (i + ngram_size)) <$> range 0 (len padded - ngram_size + 1)).
Proof.
  intros padded. unfold tokenize_word. fold padded.
  apply (foldl_append_filter (fun i => slice padded i (i + ngram_size))
           (fun t => truthy (strip t))).
Qed.

Lemma length_tokenize_word (word : str) (ngram_size : Z) :
  len (tokenize_word word ngram_size) <= Z.max 0 (len word + 3 - ngram_size).
Proof.
  rewrite tokenize_word_windows. cbv zeta. unfold len.
  etransitivity; [apply inj_le, length_filter_le|].
  rewrite length_fmap, length_range, !length_app. simpl. lia.
Qed.

(** C3, as the code has it: for every word and every [ngram_size >= 1],
    [tokenize_word] returns at most [len(word) + 3 - ngram_size] n-grams when
    that number is positive, and none otherwise.  (The padded word has
    [len(word) + 2] characters, hence [len(word) + 3 - ngram_size] windows.) *)
Theorem tokenize_word_length_bound (word : str) (ngram_size : Z) :
  1 <= ngram_size ->
  len (tokenize_word word ngram_size) <= Z.max 0 (len word + 3 - ngram_size).
Proof. intros _. apply length_tokenize_word. Qed.

Lemma tokenize_word_length_bound_witness :
  1 <= 2 /\ len (tokenize_word (py "cat") 2) <= Z.max 0 (len (py "cat") + 3 - 2).
Proof. split; [lia | apply (tokenize_word_length_bound (py "cat") 2); lia]. Defined.

(** C3 as stated fails: ["cat"] has the four 2-grams [" c"], ["ca"], ["at"],
    ["t "], one more than [len("cat") + 2 - 2]. *)
Lemma tokenize_word_exceeds_stated_bound :
  tokenize_word (py "cat") 2 = [py " c"; py "ca"; py "at"; py "t "]
  /\ ~ (1 <= 2 -> len (tokenize_word (py "cat") 2) <= len (py "cat") + 2 - 2).
Proof.
  split; [reflexivity|]. intros H. specialize (H ltac:(lia)).
  vm_compute in H. by apply H.
Qed.

(** [strip] leaves something of a string that is not all whitespace. *)
Lemma lstrip_keeps_non_space (s : str) :
  Exists (fun c => isspace c = false) s ->
  Exists (fun c => isspace c = false) (lstrip s).
Proof.
  induction s as [|c s IH]; intros Hex; [done|]. simpl.
  destruct (isspace c) eqn:Hc; [|done].
  apply IH. apply Exists_cons in Hex as [Hc'|Hs]; [congruence | done].
Qed.

Lemma truthy_strip (s : str) :
  Exists (fun c => isspace c = false) s -> truthy (strip s) = true.
Proof.
  intros Hex. unfold strip.
  assert (Exists (fun c => isspace c = false) (lstrip (rev (lstrip s)))) as Hin.
  { apply lstrip_keeps_non_space, Exists_exists.
    apply lstrip_keeps_non_space, Exists_exists in Hex as (c & Hc & Hns).
    exists c. split; [|done]. apply list_elem_of_In, in_rev.
    rewrite rev_involutive. by apply list_elem_of_In. }
  destruct (lstrip (rev (lstrip s))) as [|c t]; [by apply Exists_nil in Hin|].
  simpl. by destruct (rev t).
Qed.

Lemma slice_inside {A : Type} (s : list A) (i n : nat) :
  (i + n <= length s)%nat ->
  slice s (Z.of_nat i) (Z.of_nat i + Z.of_nat n) = take n (drop i s).
Proof.
  intros Hin. unfold slice, slice_index, len.
  destruct (Z.ltb_spec (Z.of_nat i) 0) as [|_]; [lia|].
  destruct (Z.ltb_spec (Z.of_nat i + Z.of_nat n) 0) as [|_]; [lia|].
  rewrite !Z.min_l by lia. f_equal; [lia|]. f_equal. lia.
Qed.

Lemma window_has_non_space (word : str) (i n : nat) :
  word <> [] -> Forall (fun c => isspace c = false) word ->
  (2 <= n)%nat -> (i + n <= length word + 2)%nat ->
  Exists (fun c => isspace c = false) (take n (drop i (py " " ++ word ++ py " "))).
Proof.
  intros Hne Hword Hn Hin. destruct n as [|[|n]]; [lia..|].
  destruct i as [|i].
  - destruct word as [|c word]; [done|]. simpl.
    apply Exists_cons_tl, Exists_cons_hd. by apply Forall_cons in Hword as [Hc _].
  - change (drop (S i) (py " " ++ word ++ py " ")) with (drop i (word ++ py " ")).
    destruct (lookup_lt_is_Some_2 word i ltac:(lia)) as [c Hc].
    rewrite (drop_S _ c i) by (by apply lookup_app_l_Some).
    simpl. apply Exists_cons_hd.
    rewrite Forall_lookup in Hword. by eapply Hword.
Qed.

(** The bound is reached: a non-empty word without whitespace has exactly
    [len(word) + 3 - ngram_size] n-grams for every
    [2 <= ngram_size <= len(word) + 2].  A window of two characters or more
    cannot lie within the padding alone. *)
Lemma tokenize_word_count (word : str) (ngram_size : Z) :
  word <> [] -> Forall (fun c => isspace c = false) word ->
  2 <= ngram_size <= len word + 2 ->
  len (tokenize_word word ngram_size) = len word + 3 - ngram_size.
Proof.
  intros Hne Hword Hn. rewrite tokenize_word_windows. cbv zeta.
  set (padded := py " " ++ word ++ py " ").
  assert (length padded = S (S (length word))) as Hlen
    by (unfold padded; rewrite !length_app; simpl; lia).
  rewrite filter_all.
  - unfold len in *. rewrite length_fmap, length_range. lia.
  - apply Forall_fmap, Forall_forall. intros i Hi. simpl.
    unfold range in Hi. apply list_elem_of_fmap in Hi as (k & -> & Hk).
    apply elem_of_seq in Hk. unfold len in *.
    replace ngram_size with (Z.of_nat (Z.to_nat ngram_size)) at 1 by lia.
    rewrite Z.add_0_l, slice_inside by lia.
    apply truthy_strip. fold padded. apply window_has_non_space; [done..|lia|lia].
Qed.

(** C10: for every [ngram_size >= 1], [tokenize_word] of the empty word is
    the empty list: the padded word is two spaces, and every window over it
    is blank. *)
Theorem tokenize_word_empty (ngram_size : Z) :
  1 <= ngram_size -> tokenize_word [] ngram_size = [].
Proof.
  intros Hn. rewrite tokenize_word_windows. cbv zeta.
  destruct (decide (ngram_size = 1)) as [->|]; [reflexivity|].
  destruct (decide (ngram_size = 2)) as [->|]; [reflexivity|].
  unfold range. replace (Z.to_nat _) with 0%nat; [reflexivity|].
  change (len (py " " ++ [] ++ py " ")) with 2. lia.
Qed.

Lemma tokenize_word_empty_witness :
  1 <= 1 /\ tokenize_word [] 1 = [].
Proof. split; [lia | apply (tokenize_word_empty 1); lia]. Defined.

(** ** [is_valid_language_word] *)

Lemma get_language_charset_unknown (language : str) :
  language <> py "lv" -> get_language_charset language = [].
Proof.
  intros Hne. unfold get_language_charset.
  rewrite lookup_insert_ne by done. by rewrite lookup_empty.
Qed.

Lemma get_language_exclude_charset_unknown (language : str) :
  language <> py "lv" -> get_language_exclude_charset language = [].
Proof.
  intros Hne. unfold get_language_exclude_charset.
  rewrite lookup_insert_ne by done. by rewrite lookup_empty.
Qed.

(** Without character sets no character is looked at. *)
Lemma scan_chars_unconstrained (chars : str) : scan_chars [] [] chars = Return true.
Proof. induction chars as [|c chars IH]; [done|]. simpl. exact IH. Qed.

(** C9: for every word and every language code other than ['lv'] (the only
    entry of the two character-set tables), [is_valid_language_word]
    returns [True]. *)
Theorem is_valid_language_word_unknown_language (word language : str) :
  language <> py "lv" -> is_valid_language_word word language = Return true.
Proof.
  intros Hne. unfold is_valid_language_word.
  rewrite get_language_charset_unknown, get_language_exclude_charset_unknown by done.
  apply scan_chars_unconstrained.
Qed.

Lemma is_valid_language_word_unknown_language_witness :
  py "xx" <> py "lv" /\ is_valid_language_word (py "cat") (py "xx") = Return true.
Proof.
  split; [discriminate|].
  apply (is_valid_language_word_unknown_language (py "cat") (py "xx")). discriminate.
Defined.

(** ** Precision and recall *)

(** C1, as the code has it: on these pairs [calculate_precision] returns 0.5
    (both benchmark sources are among the aligned sources, one of the two
    with the right target) and [calculate_recall] returns 0.5. *)
Theorem precision_recall_example :
  calculate_precision benchmark_example aligned_example = Return (1 # 2)%Q
  /\ calculate_recall benchmark_example aligned_example = Return (1 # 2)%Q.
Proof. split; vm_compute; reflexivity. Qed.

(** C1 as stated fails: the precision of the example is 0.5, not 1.0. *)
Lemma precision_example_is_not_one :
  calculate_precision benchmark_example aligned_example = Return (1 # 2)%Q
  /\ calculate_precision benchmark_example aligned_example <> Return 1%Q.
Proof. split; vm_compute; [reflexivity | discriminate]. Qed.

Lemma elem_of_values (aligned_pairs : gmap str str) (trg : str) :
  trg ∈ (map_to_list aligned_pairs).*2 <-> exists src, aligned_pairs !! src = Some trg.
Proof.
  rewrite list_elem_of_fmap. split.
  - intros [[src trg'] [-> Hin]]. exists src. by apply elem_of_map_to_list.
  - intros [src Hsrc]. exists (src, trg). split; [done|]. by apply elem_of_map_to_list.
Qed.

Lemma precision_step_not_counted (aligned_pairs : gmap str str) (counters : Z * Z)
    (pair : str * str) :
  ~ counted aligned_pairs pair -> precision_step aligned_pairs counters pair = counters.
Proof.
  intros Hnot. destruct counters as [n c], pair as [src trg]. simpl.
  destruct (aligned_pairs !! src) as [v|] eqn:Hsrc.
  - exfalso. apply Hnot. left. simpl. by rewrite Hsrc.
  - rewrite bool_decide_false; [done|].
    rewrite elem_of_values. intros H. apply Hnot. by right.
Qed.

Lemma precision_counters_none_counted (aligned_pairs : gmap str str)
    (pairs : list (str * str)) (counters : Z * Z) :
  Forall (fun pair => ~ counted aligned_pairs pair) pairs ->
  foldl (precision_step aligned_pairs) counters pairs = counters.
Proof.
  induction 1 as [|pair pairs Hpair _ IH]; simpl; [done|].
  by rewrite precision_step_not_counted.
Qed.

(** C2, as the code has it: with an empty benchmark [calculate_recall]
    raises the interpreter's [ZeroDivisionError], and so does
    [calculate_precision] whenever no benchmark pair has its source among
    the aligned sources or its target among the aligned targets. *)
Theorem zero_denominator_raises_ZeroDivisionError
    (benchmark_pairs aligned_pairs : gmap str str) :
  calculate_recall ∅ aligned_pairs = Raise ZeroDivisionError
  /\ ((forall src trg, benchmark_pairs !! src = Some trg ->
         ~ counted aligned_pairs (src, trg)) ->
      calculate_precision benchmark_pairs aligned_pairs = Raise ZeroDivisionError).
Proof.
  split.
  - unfold calculate_recall. rewrite map_to_list_empty, map_size_empty. reflexivity.
  - intros Hnone. unfold calculate_precision.
    rewrite precision_counters_none_counted; [reflexivity|].
    apply Forall_forall. intros [src trg] Hin.
    apply Hnone. by apply elem_of_map_to_list.
Qed.

Lemma zero_denominator_raises_ZeroDivisionError_witness :
  calculate_recall ∅ aligned_example = Raise ZeroDivisionError
  /\ calculate_precision benchmark_example ∅ = Raise ZeroDivisionError.
Proof.
  split.
  - apply (zero_denominator_raises_ZeroDivisionError ∅ aligned_example).
  - apply (zero_denominator_raises_ZeroDivisionError benchmark_example ∅).
    intros src trg _ [[v Hv]|[src' Hsrc']].
    + simpl in Hv. rewrite lookup_empty in Hv. discriminate Hv.
    + rewrite lookup_empty in Hsrc'. discriminate Hsrc'.
Defined.

(** C2 as stated fails: for an empty benchmark the recall calculation
    raises [ZeroDivisionError], not [EmptyBenchmark], and when nothing of the
    benchmark is in the aligned set the precision calculation raises
    [ZeroDivisionError], not [NoOverlap]: the arithmetic fault is what the
    caller sees. *)
Lemma zero_denominator_is_not_explicit :
  (calculate_recall ∅ aligned_example = Raise ZeroDivisionError
   /\ calculate_recall ∅ aligned_example <> Raise EmptyBenchmark)
  /\ (calculate_precision benchmark_example ∅ = Raise ZeroDivisionError
      /\ calculate_precision benchmark_example ∅ <> Raise NoOverlap).
Proof. repeat split; try (vm_compute; reflexivity); vm_compute; discriminate. Qed.

(** ** The matcher is sound for the declarative reading *)

Lemma repeat_loop_sound {R : Type} (s : str) (a : regex)
    (step : mstate -> (mstate -> option R) -> option R) :
  sound_step s a step ->
  forall fuel, sound_step s (MaxRepeat1 a) (fun st k => repeat_loop step k fuel st).
Proof.
  intros Hstep fuel. induction fuel as [|fuel IH]; intros st k x Hrun; simpl in Hrun.
  - apply Hstep in Hrun as (st1 & Hm & Hk).
    exists st1. split; [by apply matches_MaxRepeat1_once | done].
  - apply Hstep in Hrun as (st1 & Hm & Hk).
    destruct (pos st <? pos st1)%nat;
      [|exists st1; split; [by apply matches_MaxRepeat1_once | done]].
    destruct (repeat_loop step k fuel st1) as [y|] eqn:Hmore.
    + inversion Hk; subst y. apply IH in Hmore as (st2 & Hm2 & Hk2).
      exists st2. split; [by eapply matches_MaxRepeat1_more | done].
    + exists st1. split; [by apply matches_MaxRepeat1_once | done].
Qed.

(** Every result of [exec] comes from a match of the pattern. *)
Theorem exec_sound {R : Type} (s : str) (r : regex) : @sound_step R s r (exec s r).
Proof.
  revert R. induction r as [|negate items|a IHa b IHb|a IHa b IHb|a IHa|n a IHa|a IHa|];
    intros R st k x Hrun; simpl in Hrun.
  - exists st. split; [constructor | done].
  - destruct (s !! pos st) as [c|] eqn:Hc; [|done].
    destruct (in_set negate items c) eqn:Hin; [|done].
    exists (advance st). split; [by econstructor | done].
  - apply IHa in Hrun as (st1 & Hm1 & Hrun). apply IHb in Hrun as (st2 & Hm2 & Hk).
    exists st2. split; [by econstructor | done].
  - destruct (exec s a st k) as [y|] eqn:Hleft.
    + inversion Hrun; subst y. apply IHa in Hleft as (st1 & Hm & Hk).
      exists st1. split; [by apply matches_Branch_l | done].
    + apply IHb in Hrun as (st1 & Hm & Hk).
      exists st1. split; [by apply matches_Branch_r | done].
  - by apply (repeat_loop_sound s a (exec s a) (IHa R)) in Hrun.
  - apply IHa in Hrun as (st1 & Hm & Hk).
    exists (set_mark n (pos st, pos st1) st1). split; [by constructor | done].
  - destruct (exec s a st Some) as [st1|] eqn:Hlook; [|done].
    apply IHa in Hlook as (st1' & Hm & Hk). inversion Hk; subst st1'.
    eexists. split; [by apply matches_Assert | done].
  - destruct (at_boundary s (pos st)) eqn:Hb; [|done].
    exists st. split; [by constructor | done].
Qed.

(** A repetition of a pattern that consumes something consumes something. *)
Lemma repeat_advances (s : str) (a : regex) :
  (forall st st', matches s a st st' -> (pos st < pos st')%nat) ->
  forall st st', matches s (MaxRepeat1 a) st st' -> (pos st < pos st')%nat.
Proof.
  intros Hone st st' H. remember (MaxRepeat1 a) as r eqn:Hr.
  induction H as [| | | | |a' st st1 H1|a' st st1 st2 H1 _ H2 IH2| | |];
    try discriminate Hr; inversion Hr; subst a'.
  - by apply Hone.
  - apply Hone in H1. specialize (IH2 eq_refl). lia.
Qed.

(** The pattern [findall] is used with never matches the empty string, so
    the scan for the next candidate always resumes at the end of the last
    one. *)
Lemma word_split_match_not_empty (s : str) (i : nat) (m : match_object) :
  match_at word_split_re s i = Some m -> (m_start m < m_end m)%nat.
Proof.
  unfold match_at, m_end. intros Hm.
  destruct (exec s word_split_re _ _) as [st|] eqn:Hrun; [|done].
  inversion Hm; subst m. cbn [m_start m_state].
  apply exec_sound in Hrun as (st' & Hmatch & Hst'). inversion Hst'; subst st'.
  unfold word_split_re in Hmatch. invert_matches.
  match goal with
  | H : matches _ (MaxRepeat1 _) _ _ |- _ =>
      apply repeat_advances in H; [exact H|]
  end.
  clear. intros st st' H. unfold word_split_char in H.
  invert_matches; cbn [pos set_mark advance]; lia.
Qed.

(** ** [get_natural_language_words] *)

Lemma re_search_space (text : str) :
  re_search space_pattern_string text = Return (search space_re text).
Proof. unfold re_search. by rewrite space_pattern_compiles. Qed.

Lemma rejected_natural (w : str) : rejected w = Return (negb (natural w)).
Proof.
  unfold rejected, natural, re_fullmatch. rewrite nl_word_pattern_compiles.
  rewrite (Z.ltb_antisym 2 (len w)). by destruct (2 <=? len w).
Qed.

Lemma first_groups (text : str) (ms : list match_object) :
  comprehension (fun nl_word => item_getitem nl_word 0)
    (findall_item_of word_split_re text <$> ms)
  = Return ((fun m => group text m 1) <$> ms).
Proof.
  induction ms as [|m ms IH]; [done|].
  rewrite !fmap_cons. cbn [comprehension]. rewrite IH. reflexivity.
Qed.

(** *** The URL guard *)

Lemma in_set_space_items (c : Z) : in_set false space_items c = space_like c.
Proof.
  unfold in_set, space_like, space_items. simpl. reflexivity.
Qed.

Lemma match_at_space_re (s : str) (i : nat) :
  is_match (match_at space_re s i) = from_option space_like false (s !! i).
Proof.
  unfold match_at, space_re. cbn [exec pos].
  destruct (s !! i) as [c|]; [|done].
  rewrite in_set_space_items. cbn [from_option]. destruct (space_like c); reflexivity.
Qed.

Lemma search_from_space_none (s : str) (fuel i : nat) :
  Forall (fun c => space_like c = false) s -> search_from space_re s fuel i = None.
Proof.
  intros Hs. revert i. induction fuel as [|fuel IH]; intros i; simpl.
  all: pose proof (match_at_space_re s i) as Hi.
  all: destruct (match_at space_re s i) as [m|]; [|done].
  all: exfalso; simpl in Hi.
  all: destruct (s !! i) as [c|] eqn:Hc; [|done].
  all: rewrite Forall_lookup in Hs; apply Hs in Hc; simpl in Hi; congruence.
Qed.

Lemma contains_elem_of (c : Z) (s : str) : contains c s = true <-> c ∈ s.
Proof.
  unfold contains. rewrite existsb_exists. split.
  - intros (x & Hx & Heq). apply Z.eqb_eq in Heq. subst x. by apply list_elem_of_In.
  - intros Hin. exists c. split; [by apply list_elem_of_In | apply Z.eqb_refl].
Qed.

(** C6: a text without any space-like character (whitespace or U+00B7,
    U+2027, U+3000, U+30FB, U+FF65) that contains a slash yields no words;
    in particular ["http://example.com/page"] yields none. *)
Theorem url_guard_returns_empty :
  (forall text : str,
      Forall (fun c => space_like c = false) text -> ord "/" ∈ text ->
      get_natural_language_words text = Return [])
  /\ get_natural_language_words (py "http://example.com/page") = Return [].
Proof.
  split; [|vm_compute; reflexivity].
  intros text Hspace Hslash. unfold get_natural_language_words.
  rewrite re_search_space. unfold search.
  rewrite search_from_space_none by done. simpl.
  apply contains_elem_of in Hslash. by rewrite Hslash.
Qed.

Lemma url_guard_returns_empty_witness :
  Forall (fun c => space_like c = false) (py "ftp://a/b")
  /\ ord "/" ∈ py "ftp://a/b"
  /\ get_natural_language_words (py "ftp://a/b") = Return [].
Proof.
  assert (Forall (fun c => space_like c = false) (py "ftp://a/b")) as Hspace
    by (repeat constructor).
  assert (ord "/" ∈ py "ftp://a/b") as Hslash
    by (apply contains_elem_of; reflexivity).
  split; [exact Hspace|]. split; [exact Hslash|].
  exact (proj1 url_guard_returns_empty (py "ftp://a/b") Hspace Hslash).
Defined.

(** *** The deletion loop *)

Lemma range_0_of_nat (n : nat) : range 0 (Z.of_nat n) = Z.of_nat <$> seq 0 n.
Proof. unfold range. rewrite Z.sub_0_r, Nat2Z.id. reflexivity. Qed.

Lemma getitem_lookup {A : Type} (l : list A) (i : nat) (x : A) :
  l !! i = Some x -> getitem l (Z.of_nat i) = Return x.
Proof.
  intros Hx. unfold getitem.
  destruct (Z.ltb_spec (Z.of_nat i) 0) as [Hneg|_]; [lia|].
  destruct (Z.ltb_spec (Z.of_nat i) 0) as [Hneg|_]; [lia|].
  by rewrite Nat2Z.id, Hx.
Qed.

(** [remove] deletes the first occurrence, which is at or before any
    position that holds the value. *)
Lemma list_remove_first (l : list str) (j : nat) (w : str) :
  l !! j = Some w ->
  exists k, (k <= j)%nat /\ l !! k = Some w /\ list_remove w l = Return (delete k l).
Proof.
  revert j. induction l as [|y l IH]; intros j Hj; [done|]. simpl.
  destruct (decide (y = w)) as [->|Hne].
  - exists 0%nat. split; [lia|]. by split.
  - destruct j as [|j]; [simpl in Hj; congruence|].
    destruct (IH j Hj) as (k & Hk & Hlk & Hrm).
    exists (S k). split; [lia|]. split; [done|]. by rewrite Hrm.
Qed.

Lemma filter_delete (keep : str -> bool) (l : list str) (k : nat) (w : str) :
  l !! k = Some w -> keep w = false ->
  List.filter keep (delete k l) = List.filter keep l.
Proof.
  revert k. induction l as [|y l IH]; intros k Hk Hw; [done|].
  destruct k as [|k]; simpl in *.
  - inversion Hk; subst y. by rewrite Hw.
  - by rewrite (IH k).
Qed.

Lemma drop_delete_le {A : Type} (l : list A) (k j : nat) :
  (k <= j)%nat -> (k < length l)%nat -> drop j (delete k l) = drop (S j) l.
Proof.
  revert k j. induction l as [|y l IH]; intros k j Hkj Hk; simpl in Hk; [lia|].
  destruct k as [|k]; [done|].
  destruct j as [|j]; [lia|]. simpl. apply IH; lia.
Qed.

(** The invariant of [for i in reversed(range(len(nl_words)))]: before the
    pass for index [i - 1] the list still has [i] elements at least, and
    the elements from index [i] on are all kept.  A deletion before or at
    the current index only shifts the tail that was already examined. *)
Lemma deletion_loop (i : nat) (nl_words : list str) :
  (i <= length nl_words)%nat ->
  Forall (fun w => natural w = true) (drop i nl_words) ->
  for_each remove_step (rev (Z.of_nat <$> seq 0 i)) nl_words
  = Return (List.filter natural nl_words).
Proof.
  revert nl_words. induction i as [|j IH]; intros nl_words Hlen Hkept.
  - simpl. by rewrite filter_all.
  - rewrite seq_S, fmap_app, rev_app_distr. simpl.
    destruct (lookup_lt_is_Some_2 nl_words j ltac:(lia)) as [w Hw].
    unfold remove_step at 2. rewrite (getitem_lookup _ _ _ Hw). simpl.
    rewrite rejected_natural. simpl.
    destruct (natural w) eqn:Hnat; simpl.
    + apply IH; [lia|]. rewrite (drop_S _ _ _ Hw). by constructor.
    + destruct (list_remove_first _ _ _ Hw) as (k & Hk & Hlk & ->). simpl.
      assert (k < length nl_words)%nat as Hklen by (by eapply lookup_lt_Some).
      rewrite <- (filter_delete natural nl_words k w Hlk Hnat).
      apply IH.
      * rewrite length_delete by eauto. lia.
      * by rewrite drop_delete_le.
Qed.

Lemma get_natural_language_words_survivors (text : str) :
  get_natural_language_words text
  = Return (List.filter (survives text) (candidate_words text)).
Proof.
  unfold get_natural_language_words, survives.
  rewrite re_search_space. cbn [mbind result_bind]. fold (url_like text).
  destruct (url_like text); cbn [negb andb].
  - induction (candidate_words text) as [|w ws IH]; [done|]. simpl. exact IH.
  - unfold re_findall. rewrite word_split_pattern_compiles. cbn [mbind result_bind].
    rewrite first_groups. cbn [mbind result_bind]. fold (candidate_words text).
    unfold len. rewrite range_0_of_nat. apply deletion_loop; [lia|].
    rewrite drop_all. constructor.
Qed.

(** C8: for every text the result is the list of candidates filtered in
    place: the candidates that survive (the URL guard did not fire, at
    least two characters, the natural-word shape), in their order of
    occurrence and as often as they occur.  Deleting by value instead of by
    index does not disturb this: in ["a to a be to a"] the three
    one-letter candidates go and both occurrences of ["to"] stay. *)
Theorem get_natural_language_words_filter :
  (forall text : str,
      get_natural_language_words text
      = Return (List.filter (survives text) (candidate_words text)))
  /\ candidate_words (py "a to a be to a")
     = [py "a"; py "to"; py "a"; py "be"; py "to"; py "a"]
  /\ get_natural_language_words (py "a to a be to a")
     = Return [py "to"; py "be"; py "to"].
Proof.
  split; [exact get_natural_language_words_survivors|].
  split; vm_compute; reflexivity.
Qed.

(** *** The natural-word shape *)

Lemma exec_nl_word_char {R : Type} (s : str) (st : mstate) (k : mstate -> option R) :
  exec s nl_word_char st k =
  match s !! pos st with
  | Some c =>
      if natural_char c then k (set_mark 1 (pos st, S (pos st)) (advance st)) else None
  | None => None
  end.
Proof.
  destruct st as [i ms]. unfold nl_word_char. cbn [exec pos marks advance].
  destruct (s !! i) as [c|]; [|done].
  unfold natural_char, in_set. cbn [existsb item_matches category_matches xorb].
  rewrite !orb_false_r.
  destruct (isdecimal c || (c =? ord "_")); [done|]. cbn [negb andb pos marks advance].
  reflexivity.
Qed.

(** From a position before the end whose remaining characters all belong to
    the class, the greedy repetition runs to the end of the string. *)
Lemma repeat_nl_word_to_end (s : str) (n : nat) :
  forall (st : mstate) (fuel : nat),
    (pos st + S n = length s)%nat -> (n <= fuel)%nat ->
    Forall (fun c => natural_char c = true) (drop (pos st) s) ->
    is_Some (repeat_loop (exec s nl_word_char) (at_end s) fuel st).
Proof.
  induction n as [|n IH]; intros st fuel Hpos Hfuel Hall.
  all: destruct (lookup_lt_is_Some_2 s (pos st) ltac:(lia)) as [c Hc].
  all: rewrite (drop_S _ _ _ Hc) in Hall; apply Forall_cons in Hall as [Hok Hall].
  all: destruct fuel as [|fuel]; cbn [repeat_loop]; rewrite exec_nl_word_char, Hc, Hok.
  all: cbn [pos set_mark advance].
  - unfold at_end. cbn [pos set_mark advance].
    rewrite (proj2 (Nat.eqb_eq _ _)) by lia. by eexists.
  - rewrite (proj2 (Nat.ltb_lt _ _)) by lia.
    destruct (repeat_loop _ _ _ _); [by eexists|].
    unfold at_end. cbn [pos set_mark advance].
    rewrite (proj2 (Nat.eqb_eq _ _)) by lia. by eexists.
  - lia.
  - rewrite (proj2 (Nat.ltb_lt _ _)) by lia.
    destruct (IH (set_mark 1 (pos st, S (pos st)) (advance st)) fuel) as [st' Hst'].
    + cbn [pos set_mark advance]. lia.
    + lia.
    + exact Hall.
    + rewrite Hst'. by eexists.
Qed.

Lemma fullmatch_nl_word_complete (w : str) :
  w <> [] -> Forall (fun c => natural_char c = true) w ->
  is_match (fullmatch nl_word_re w) = true.
Proof.
  intros Hne Hall. unfold fullmatch, nl_word_re. cbn [exec pos].
  change (fun st' : mstate => at_end w st') with (at_end w).
  destruct (repeat_nl_word_to_end w (length w - 1) (MState 0 []) (length w - 0))
    as [st Hst].
  - destruct w; [done|]. simpl. lia.
  - lia.
  - exact Hall.
  - rewrite Hst. reflexivity.
Qed.

Lemma natural_char_no_digit_no_underscore (c : Z) :
  natural_char c = true -> no_digit_no_underscore c.
Proof.
  unfold natural_char. intros [H _]%andb_true_iff.
  apply negb_true_iff, orb_false_iff in H as [Hd Hu].
  split; [done|]. intros ->. discriminate Hu.
Qed.

Lemma in_sets_natural_char (c : Z) :
  in_set true [CATEGORY CATEGORY_DIGIT; LITERAL (ord "_")] c = true ->
  in_set false [CATEGORY CATEGORY_WORD; LITERAL 0x2019; LITERAL (ord "'");
                LITERAL (ord "-")] c = true ->
  natural_char c = true.
Proof.
  unfold in_set, natural_char. cbn [existsb item_matches category_matches xorb].
  rewrite !orb_false_r. intros H1 H2. rewrite H2.
  by destruct (isdecimal c || (c =? ord "_")).
Qed.

(** One iteration of the group of [nl_word_pattern_string] takes exactly one
    character of the class. *)
Lemma nl_word_char_matches (s : str) (st st' : mstate) :
  matches s nl_word_char st st' ->
  pos st' = S (pos st) /\ exists c, s !! pos st = Some c /\ natural_char c = true.
Proof.
  unfold nl_word_char. intros H. invert_matches. cbn [pos marks advance set_mark] in *.
  split; [done|]. eexists. split; [eassumption|].
  apply in_sets_natural_char; [assumption|]. congruence.
Qed.

Lemma nl_word_repeat_matches (s : str) (st st' : mstate) :
  matches s (MaxRepeat1 nl_word_char) st st' ->
  (pos st < pos st')%nat
  /\ forall i, (pos st <= i < pos st')%nat ->
       exists c, s !! i = Some c /\ natural_char c = true.
Proof.
  intros H. remember (MaxRepeat1 nl_word_char) as r eqn:Hr.
  induction H as [| | | | |a st st1 H1|a st st1 st2 H1 _ H2 IH2| | |];
    try discriminate Hr; inversion Hr; subst a.
  - apply nl_word_char_matches in H1 as (Hpos & c & Hc & Hok).
    split; [lia|]. intros i Hi. replace i with (pos st) by lia. eauto.
  - apply nl_word_char_matches in H1 as (Hpos & c & Hc & Hok).
    destruct (IH2 eq_refl) as [Hlt Hall]. split; [lia|]. intros i Hi.
    destruct (decide (i = pos st)) as [->|]; [eauto|]. apply Hall. lia.
Qed.

(** A word the shape test accepts is made of characters of the class. *)
Lemma fullmatch_nl_word (w : str) :
  is_match (fullmatch nl_word_re w) = true ->
  w <> [] /\ Forall (fun c => natural_char c = true) w.
Proof.
  unfold fullmatch. intros H.
  destruct (exec w nl_word_re _ _) as [st|] eqn:Hrun; [clear H|done].
  apply exec_sound in Hrun as (st' & Hm & Hend). unfold at_end in Hend.
  destruct (Nat.eqb_spec (pos st') (length w)) as [Hlen|]; [|done].
  unfold nl_word_re in Hm. invert_matches.
  match goal with
  | H : matches _ (MaxRepeat1 _) _ _ |- _ =>
      apply nl_word_repeat_matches in H as [Hlt Hall]
  end.
  simpl in Hlt, Hall. split.
  - intros ->. simpl in Hlen. lia.
  - apply Forall_lookup. intros i c Hc.
    destruct (Hall i) as (c' & Hc' & Hok).
    + apply lookup_lt_Some in Hc. lia.
    + congruence.
Qed.

(** Steps 3 and 4 of the extraction, exactly: a candidate is kept when it
    has two characters or more, each of them neither a digit nor an
    underscore and either a word character or one of U+2019, ['], [-]. *)
Lemma natural_iff (w : str) :
  natural w = true <-> 2 <= len w /\ Forall (fun c => natural_char c = true) w.
Proof.
  unfold natural. rewrite andb_true_iff, Z.leb_le. split.
  - intros [Hlen Hm]. split; [done|]. by apply fullmatch_nl_word.
  - intros [Hlen Hall]. split; [done|]. apply fullmatch_nl_word_complete; [|done].
    intros ->. unfold len in Hlen. simpl in Hlen. lia.
Qed.

Lemma natural_shape (w : str) :
  natural w = true -> 2 <= len w /\ Forall no_digit_no_underscore w.
Proof.
  intros [Hlen Hall]%natural_iff. split; [done|].
  eapply Forall_impl; [exact Hall|]. apply natural_char_no_digit_no_underscore.
Qed.

(** C7: whatever the text, no returned word is shorter than two characters
    and none contains a digit or an underscore, so every candidate with
    one of these defects has been dropped; in particular
    ["I'm reading a2 book"] loses ["a2"] and keeps ["reading"] and
    ["book"] (and ["I'm"]). *)
Theorem get_natural_language_words_drops :
  (forall text : str, exists nl_words,
      get_natural_language_words text = Return nl_words
      /\ Forall (fun w => 2 <= len w /\ Forall no_digit_no_underscore w) nl_words)
  /\ get_natural_language_words (py "I'm reading a2 book")
     = Return [py "I'm"; py "reading"; py "book"].
Proof.
  split; [|vm_compute; reflexivity].
  intros text. eexists. split; [apply get_natural_language_words_survivors|].
  apply Forall_forall. intros w Hw%list_elem_of_In%filter_In.
  destruct Hw as [_ Hw]. unfold survives in Hw.
  apply andb_true_iff in Hw as [_ Hw]. by apply natural_shape.
Qed.

(** ** [extract_char_ngrams] and the lines of the text *)

(** The separator is never found in a text without a question mark, so
    such a text stays in one piece, line feeds included. *)
Lemma split_from_no_question_mark (piece text : str) :
  ord "?" ∉ text ->
  split_from [13; ord "?"; 10] O piece text = [rev piece ++ text].
Proof.
  revert piece. induction text as [|c text IH]; intros piece Hno; simpl.
  - by rewrite app_nil_r.
  - rewrite bool_decide_false.
    + rewrite IH by (intros Hin; apply Hno; by right).
      simpl. by rewrite <- app_assoc.
    + intros [rest Hrest]. apply Hno. inversion Hrest; subst.
      right. left.
Qed.

(** A text without a question mark is never cut: the separator of
    [text.split] is a literal string of three characters (carriage return,
    question mark, line feed), so the whole text, its line feeds included,
    is handed to the word extractor as one line. *)
Lemma extract_char_ngrams_one_line (text language : str) :
  ord "?" ∉ text ->
  extract_char_ngrams text language = count_line language empty_ngram_dict text.
Proof.
  intros Hno. unfold extract_char_ngrams, split. cbn [mbind result_bind].
  rewrite split_from_no_question_mark by done. cbn [rev app for_each].
  by destruct (count_line language empty_ngram_dict text).
Qed.

(** C4 fails on the two-line text ["ab/cd\nef"]: line by line, the first
    line is a path and contributes nothing; the code looks at the text as
    one line, in which the line feed is a space, and counts the n-grams of
    [ab] and [cd] too. *)
Theorem extract_char_ngrams_not_by_line :
  let text := py "ab/cd" ++ [10] ++ py "ef" in
  count_of (extract_char_ngrams text (py "en")) 2 (py "ab") = Return (Some 1)
  /\ count_of (extract_char_ngrams_by_line text (py "en")) 2 (py "ab") = Return None
  /\ count_of (extract_char_ngrams text (py "en")) 2 (py "ef") = Return (Some 1)
  /\ count_of (extract_char_ngrams_by_line text (py "en")) 2 (py "ef") = Return (Some 1).
Proof. repeat split; vm_compute; reflexivity. Qed.

(** ** The directory converter *)

Lemma string_to_char_ngram_string_unbound (line : str) (ngram_length : Z) :
  call_and_add_newline "string_to_char_ngram_string" line ngram_length
  = Raise AttributeError.
Proof. reflexivity. Qed.

Lemma lines_from_nonempty (line content : str) :
  line <> [] \/ content <> [] -> lines_from line content <> [].
Proof.
  revert line. induction content as [|c content IH]; intros line Hne; simpl.
  - destruct line; [by destruct Hne | discriminate].
  - destruct (c =? 10); [discriminate|]. apply IH. left. discriminate.
Qed.

Lemma readlines_nonempty (content : str) : content <> [] -> readlines content <> [].
Proof. intros Hne. apply lines_from_nonempty. by right. Qed.


(** C5 fails on a directory with the one-line file [a.txt]: the output
    file is created, then the conversion of the first line raises
    [AttributeError], because [PlainText] has no attribute
    [string_to_char_ngram_string]; the output file stays empty. *)
Theorem main_raises_AttributeError :
  main [(py "a.txt", RegularFile (py "ab" ++ [10]))] ∅ 2
  = (Raise AttributeError, {[ py "a.txt" := [] ]}).
Proof. reflexivity. Qed.

(** * Further properties of the code *)

(** ** [tokenize_word]: what the n-grams are *)

(** A window that lies inside the string has the length asked for. *)
Lemma length_slice_inside {A : Type} (s : list A) (i n : nat) :
  (i + n <= length s)%nat ->
  length (slice s (Z.of_nat i) (Z.of_nat i + Z.of_nat n)) = n.
Proof. intros Hin. rewrite slice_inside by done. rewrite length_take, length_drop. lia. Qed.

(** The n-grams are windows inside the padded word. *)
Lemma tokenize_word_tokens (word : str) (ngram_size : Z) (token : str) :
  0 <= ngram_size -> token ∈ tokenize_word word ngram_size ->
  exists k : nat,
    (k + Z.to_nat ngram_size <= length (py " " ++ word ++ py " "))%nat
    /\ token = take (Z.to_nat ngram_size) (drop k (py " " ++ word ++ py " ")).
Proof.
  intros Hn Htoken. rewrite tokenize_word_windows in Htoken. cbv zeta in Htoken.
  set (padded := py " " ++ word ++ py " ") in *.
  apply list_elem_of_In, filter_In in Htoken as [Htoken _].
  apply list_elem_of_In, list_elem_of_fmap in Htoken as (i & -> & Hi).
  unfold range in Hi. apply list_elem_of_fmap in Hi as (k & -> & Hk).
  apply elem_of_seq in Hk. unfold len in *. exists k.
  assert (k + Z.to_nat ngram_size <= length padded)%nat as Hin by lia.
  split; [done|].
  replace ngram_size with (Z.of_nat (Z.to_nat ngram_size)) at 1 by lia.
  by rewrite Z.add_0_l, slice_inside.
Qed.

Lemma tokenize_word_token_length (word : str) (ngram_size : Z) (token : str) :
  0 <= ngram_size -> token ∈ tokenize_word word ngram_size -> len token = ngram_size.
Proof.
  intros Hn Htoken.
  destruct (tokenize_word_tokens word ngram_size token Hn Htoken) as (k & Hk & ->).
  unfold len. rewrite length_take, length_drop. lia.
Qed.

(** Every n-gram has exactly [ngram_size] characters and is a contiguous
    piece of the word padded with its two spaces: the loop stops at the
    last window that fits. *)
Theorem tokenize_word_ngram_length (word : str) (ngram_size : Z) :
  0 <= ngram_size ->
  Forall (fun token =>
            len token = ngram_size
            /\ exists before after, py " " ++ word ++ py " " = before ++ token ++ after)
         (tokenize_word word ngram_size).
Proof.
  intros Hn. apply Forall_forall. intros token Htoken.
  split; [by eapply tokenize_word_token_length|].
  destruct (tokenize_word_tokens word ngram_size token Hn Htoken) as (k & _ & ->).
  eexists (take k _), (drop (Z.to_nat ngram_size) (drop k _)).
  by rewrite take_drop, take_drop.
Qed.

Lemma tokenize_word_ngram_length_witness :
  0 <= 3
  /\ Forall (fun token =>
              len token = 3
              /\ exists before after,
                   py " " ++ py "word" ++ py " " = before ++ token ++ after)
            (tokenize_word (py "word") 3).
Proof. split; [lia | apply (tokenize_word_ngram_length (py "word") 3); lia]. Defined.

Lemma tokenize_word_count_witness :
  py "cat" <> [] /\ Forall (fun c => isspace c = false) (py "cat")
  /\ 2 <= 4 <= len (py "cat") + 2
  /\ len (tokenize_word (py "cat") 4) = len (py "cat") + 3 - 4.
Proof.
  assert (py "cat" <> []) as Hne by discriminate.
  assert (Forall (fun c => isspace c = false) (py "cat")) as Hns
    by (repeat constructor).
  assert (2 <= 4 <= len (py "cat") + 2) as Hn by (vm_compute; split; discriminate).
  split; [exact Hne|]. split; [exact Hns|]. split; [exact Hn|].
  exact (tokenize_word_count (py "cat") 4 Hne Hns Hn).
Defined.

Lemma filter_fmap {A B : Type} (f : A -> B) (keep : B -> bool) (l : list A) :
  List.filter keep (f <$> l) = f <$> List.filter (fun x => keep (f x)) l.
Proof.
  induction l as [|x l IH]; [done|].
  rewrite fmap_cons. cbn [List.filter].
  destruct (keep (f x)); [rewrite fmap_cons|]; by rewrite IH.
Qed.

Lemma truthy_strip_singleton (c : Z) : truthy (strip [c]) = negb (isspace c).
Proof.
  unfold strip. simpl. destruct (isspace c) eqn:Hc; simpl; [done|].
  by rewrite Hc.
Qed.

(** The windows of one character are the characters. *)
Lemma unit_windows (s : str) :
  (fun i => slice s i (i + 1)) <$> range 0 (len s) = (fun c => [c]) <$> s.
Proof.
  unfold len. rewrite range_0_of_nat, <- list_fmap_compose.
  apply list_eq. intros k. rewrite !list_lookup_fmap.
  destruct (s !! k) as [c|] eqn:Hc.
  - rewrite (proj2 (lookup_seq 0 (length s) k k)); [|split; [done|by eapply lookup_lt_Some]].
    simpl. f_equal. apply lookup_lt_Some in Hc as Hlt.
    change (Z.of_nat k + 1) with (Z.of_nat k + Z.of_nat 1).
    rewrite (slice_inside s k 1) by lia.
    by rewrite (drop_S _ _ _ Hc).
  - rewrite lookup_seq_ge; [done|]. by apply lookup_ge_None.
Qed.

(** With [ngram_size = 1] the n-grams are the characters of the word that
    are not whitespace, one by one and in order; the padding leaves no
    trace. *)
Theorem tokenize_word_unigrams (word : str) :
  tokenize_word word 1
  = (fun c => [c]) <$> List.filter (fun c => negb (isspace c)) word.
Proof.
  rewrite tokenize_word_windows. cbv zeta.
  replace (len (py " " ++ word ++ py " ") - 1 + 1)
    with (len (py " " ++ word ++ py " ")) by lia.
  rewrite unit_windows, filter_fmap.
  rewrite (filter_ext _ (fun c => negb (isspace c)))
    by (intros c; apply truthy_strip_singleton).
  change (py " " ++ word ++ py " ") with (32 :: word ++ [32]).
  cbn [List.filter]. change (negb (isspace 32)) with false. cbn match.
  rewrite List.filter_app. simpl. by rewrite app_nil_r.
Qed.

(** ** [get_natural_language_words]: what is kept and what is not *)

(** Unless the URL guard fires, a word is returned exactly when it is a
    candidate of two characters or more whose characters are all of the
    natural-word class: nothing well-shaped is lost by the deletion loop. *)
Theorem get_natural_language_words_keeps_exactly (text : str) :
  exists nl_words,
    get_natural_language_words text = Return nl_words
    /\ forall w, w ∈ nl_words <->
         url_like text = false
         /\ w ∈ candidate_words text
         /\ 2 <= len w
         /\ Forall (fun c => natural_char c = true) w.
Proof.
  eexists. split; [apply get_natural_language_words_survivors|].
  intros w. rewrite list_elem_of_In, filter_In, <- list_elem_of_In.
  unfold survives. rewrite andb_true_iff, negb_true_iff, natural_iff. tauto.
Qed.

Lemma at_boundary_no_word (s : str) (i : nat) :
  Forall (fun c => isword c = false) s -> at_boundary s i = false.
Proof.
  intros Hs. rewrite Forall_lookup in Hs. unfold at_boundary.
  assert (forall j, from_option isword false (s !! j) = false) as Hno.
  { intros j. destruct (s !! j) as [c|] eqn:Hc; [by eapply Hs | done]. }
  rewrite Hno. by destruct i; [|rewrite Hno].
Qed.

Lemma match_at_no_word (s : str) (i : nat) :
  Forall (fun c => isword c = false) s -> match_at word_split_re s i = None.
Proof.
  intros Hs. unfold match_at, word_split_re. cbn [exec pos].
  by rewrite at_boundary_no_word.
Qed.

Lemma search_from_no_word (s : str) (fuel i : nat) :
  Forall (fun c => isword c = false) s -> search_from word_split_re s fuel i = None.
Proof.
  intros Hs. revert i. induction fuel as [|fuel IH]; intros i.
  all: cbn [search_from]; rewrite match_at_no_word by done.
  - done.
  - apply IH.
Qed.

(** A text without any word character (letters, digits, underscore) -
    blank, or punctuation only - yields no words. *)
Theorem get_natural_language_words_no_word_chars (text : str) :
  Forall (fun c => isword c = false) text ->
  get_natural_language_words text = Return [].
Proof.
  intros Hno. rewrite get_natural_language_words_survivors.
  unfold candidate_words, finditer. rewrite Nat.add_comm. cbn [Nat.add finditer_from].
  destruct (length text <? 0)%nat; [reflexivity|].
  rewrite search_from_no_word by done. reflexivity.
Qed.

Lemma get_natural_language_words_no_word_chars_witness :
  Forall (fun c => isword c = false) (py " ... -- !") /\
  get_natural_language_words (py " ... -- !") = Return [].
Proof.
  assert (Forall (fun c => isword c = false) (py " ... -- !")) as Hno
    by (repeat constructor).
  split; [exact Hno|].
  exact (get_natural_language_words_no_word_chars (py " ... -- !") Hno).
Defined.

Lemma span_text_inside (s : str) (span : nat * nat) :
  exists before after, s = before ++ span_text s span ++ after.
Proof.
  exists (take (fst span) s), (drop (snd span - fst span) (drop (fst span) s)).
  unfold span_text. by rewrite take_drop, take_drop.
Qed.

(** Every returned word is a contiguous piece of the text. *)
Theorem get_natural_language_words_from_text (text : str) :
  exists nl_words,
    get_natural_language_words text = Return nl_words
    /\ Forall (fun w => exists before after, text = before ++ w ++ after) nl_words.
Proof.
  eexists. split; [apply get_natural_language_words_survivors|].
  apply Forall_forall. intros w Hw%list_elem_of_In%filter_In.
  destruct Hw as [Hw%list_elem_of_In _]. unfold candidate_words in Hw.
  apply list_elem_of_fmap in Hw as (m & -> & _). unfold group.
  destruct (mark_of 1 (m_state m)) as [span|]; simpl.
  - apply span_text_inside.
  - exists [], text. done.
Qed.

(** ** [is_valid_language_word]: the one language of the table *)

Lemma lv_charset_compiles :
  re_compile lv_charset = Return (Seq (In false lv_charset_items) Empty).
Proof. vm_compute. reflexivity. Qed.

Lemma lv_exclude_charset_compiles :
  re_compile (py "[QqWwXxYy]") = Return (Seq (In false lv_exclude_items) Empty).
Proof. vm_compute. reflexivity. Qed.

Lemma get_language_charset_lv : get_language_charset (py "lv") = lv_charset.
Proof. vm_compute. reflexivity. Qed.

Lemma get_language_exclude_charset_lv :
  get_language_exclude_charset (py "lv") = py "[QqWwXxYy]".
Proof. vm_compute. reflexivity. Qed.

(** [re.search] of a bracketed set in a one-character string. *)
Lemma search_set_in_char (negate : bool) (items : list set_item) (c : Z) :
  is_match (search (Seq (In negate items) Empty) [c]) = in_set negate items c.
Proof.
  unfold search. cbn [length search_from]. unfold match_at. cbn [exec pos].
  cbn -[in_set]. destruct (in_set negate items c); reflexivity.
Qed.

Lemma char_fails_lv (c : Z) :
  char_fails lv_charset (py "[QqWwXxYy]") c = Return (negb (latvian_letter c)).
Proof.
  unfold char_fails, re_search.
  rewrite lv_charset_compiles, lv_exclude_charset_compiles.
  change (truthy lv_charset) with true. change (truthy (py "[QqWwXxYy]")) with true.
  cbn [mbind result_bind]. rewrite !search_set_in_char. unfold latvian_letter.
  destruct (in_set false lv_charset_items c); [|done].
  by destruct (in_set false lv_exclude_items c).
Qed.

Lemma scan_chars_lv (chars : str) :
  scan_chars lv_charset (py "[QqWwXxYy]") chars = Return (forallb latvian_letter chars).
Proof.
  induction chars as [|c chars IH]; [done|].
  cbn [scan_chars forallb]. rewrite char_fails_lv. cbn [mbind result_bind].
  destruct (latvian_letter c); [exact IH | done].
Qed.

(** For ['lv'] a word is valid exactly when each of its characters, outer
    whitespace apart, is a letter of the Latvian alphabet. *)
Theorem is_valid_language_word_lv (word : str) :
  is_valid_language_word word (py "lv") = Return (forallb latvian_letter (strip word)).
Proof.
  unfold is_valid_language_word.
  rewrite get_language_charset_lv, get_language_exclude_charset_lv.
  apply scan_chars_lv.
Qed.

Lemma lstrip_blank (s : str) : Forall (fun c => isspace c = true) s -> lstrip s = [].
Proof. induction 1 as [|c s Hc _ IH]; [done|]. simpl. by rewrite Hc. Qed.

(** A word of whitespace only (the empty word too) is valid for every
    language, ['lv'] included: nothing is left of it to check. *)
Theorem is_valid_language_word_blank (word language : str) :
  Forall (fun c => isspace c = true) word ->
  is_valid_language_word word language = Return true.
Proof.
  intros Hblank. unfold is_valid_language_word, strip.
  rewrite (lstrip_blank word) by done. reflexivity.
Qed.

Lemma is_valid_language_word_blank_witness :
  Forall (fun c => isspace c = true) (py "  ")
  /\ is_valid_language_word (py "  ") (py "lv") = Return true.
Proof.
  assert (Forall (fun c => isspace c = true) (py "  ")) as Hblank
    by (repeat constructor).
  split; [exact Hblank|].
  exact (is_valid_language_word_blank (py "  ") (py "lv") Hblank).
Defined.

(** [is_valid_language_word] answers for every word and language. *)
Lemma is_valid_language_word_total (word language : str) :
  exists valid, is_valid_language_word word language = Return valid.
Proof.
  destruct (decide (language = py "lv")) as [->|Hne].
  - eexists. unfold is_valid_language_word.
    rewrite get_language_charset_lv, get_language_exclude_charset_lv.
    apply scan_chars_lv.
  - exists true. unfold is_valid_language_word.
    rewrite get_language_charset_unknown, get_language_exclude_charset_unknown by done.
    apply scan_chars_unconstrained.
Qed.

(** ** [extract_char_ngrams]: the dictionary it builds *)

(** A loop whose body keeps an invariant and never raises does neither. *)
Lemma for_each_invariant {S A : Type} (P : S -> Prop) (body : S -> A -> result S)
    (xs : list A) :
  (forall s x, x ∈ xs -> P s -> exists s', body s x = Return s' /\ P s') ->
  forall s, P s -> exists s', for_each body xs s = Return s' /\ P s'.
Proof.
  induction xs as [|x xs IH]; intros Hbody s Hs; [by exists s|].
  destruct (Hbody s x ltac:(left) Hs) as (s1 & Hrun & Hs1).
  cbn [for_each]. rewrite Hrun. cbn [mbind result_bind].
  apply IH; [|done]. intros s' y Hy. apply Hbody. by right.
Qed.

Lemma elem_of_lengths (i : Z) : i ∈ ({[1; 2; 3; 4]} : gset Z) <-> 1 <= i <= 4.
Proof. rewrite !elem_of_union, !elem_of_singleton. lia. Qed.

Lemma empty_ngram_dict_ok : ngram_dict_ok empty_ngram_dict.
Proof.
  split.
  - apply set_eq. intros i. rewrite elem_of_dom. unfold empty_ngram_dict.
    change (range 1 5) with [1; 2; 3; 4]. cbn [foldl].
    rewrite !lookup_insert_is_Some', lookup_empty, is_Some_alt, elem_of_lengths.
    intuition lia.
  - intros i counts token n Hi Htoken. unfold empty_ngram_dict in Hi.
    change (range 1 5) with [1; 2; 3; 4] in Hi. cbn [foldl] in Hi.
    repeat (apply lookup_insert_Some in Hi as [[_ <-]|[_ Hi]];
            [by rewrite lookup_empty in Htoken|]).
    by rewrite lookup_empty in Hi.
Qed.

Lemma count_token_ok (i : Z) (ngram_dict : gmap Z (gmap str Z)) (token : str) :
  1 <= i <= 4 -> len token = i -> ngram_dict_ok ngram_dict ->
  exists ngram_dict',
    count_token i ngram_dict token = Return ngram_dict' /\ ngram_dict_ok ngram_dict'.
Proof.
  intros Hi Hlen [Hdom Hcounts]. unfold count_token.
  assert (i ∈ dom ngram_dict) as Hin by (by rewrite Hdom, elem_of_lengths).
  apply elem_of_dom in Hin as [counts Hlook]. rewrite Hlook.
  eexists. split; [reflexivity|]. split.
  - rewrite dom_insert_L, Hdom. apply set_eq. intros j.
    rewrite elem_of_union, elem_of_singleton, elem_of_lengths. lia.
  - intros j counts' token' n Hj Htoken'.
    apply lookup_insert_Some in Hj as [[<- <-]|[Hne Hj]]; [|by eapply Hcounts].
    apply lookup_insert_Some in Htoken' as [[<- <-]|[Hne Htoken']];
      [|by eapply Hcounts].
    split; [done|]. destruct (counts !! token) as [m|] eqn:Hm; [|lia].
    destruct (Hcounts _ _ _ _ Hlook Hm). lia.
Qed.

Lemma count_word_ok (language : str) (i : Z) (ngram_dict : gmap Z (gmap str Z))
    (nlw : str) :
  1 <= i <= 4 -> ngram_dict_ok ngram_dict ->
  exists ngram_dict',
    count_word language i ngram_dict nlw = Return ngram_dict'
    /\ ngram_dict_ok ngram_dict'.
Proof.
  intros Hi Hok. unfold count_word.
  destruct (is_valid_language_word_total nlw language) as [valid ->].
  cbn [mbind result_bind]. destruct valid; [|by exists ngram_dict].
  apply for_each_invariant; [|done]. intros d token Htoken Hd.
  apply count_token_ok; [done| |done].
  apply (tokenize_word_token_length nlw); [lia|done].
Qed.

Lemma count_line_ok (language : str) (ngram_dict : gmap Z (gmap str Z)) (line : str) :
  ngram_dict_ok ngram_dict ->
  exists ngram_dict',
    count_line language ngram_dict line = Return ngram_dict'
    /\ ngram_dict_ok ngram_dict'.
Proof.
  intros Hok. unfold count_line. rewrite get_natural_language_words_survivors.
  cbn [mbind result_bind]. apply for_each_invariant; [|done].
  intros d i Hi Hd. apply for_each_invariant; [|done].
  intros d' nlw _ Hd'. apply count_word_ok; [|done].
  change (range 1 5) with [1; 2; 3; 4] in Hi.
  rewrite !elem_of_cons, elem_of_nil in Hi. lia.
Qed.

Lemma extract_char_ngrams_ok (text language : str) :
  exists ngram_dict,
    extract_char_ngrams text language = Return ngram_dict
    /\ ngram_dict_ok ngram_dict.
Proof.
  unfold extract_char_ngrams, split. cbn [mbind result_bind].
  apply for_each_invariant; [|apply empty_ngram_dict_ok].
  intros d line _ Hd. by apply count_line_ok.
Qed.

(** [extract_char_ngrams] never raises - no [KeyError] escapes the
    counting - and its result has exactly the keys 1, 2, 3 and 4. *)
Theorem extract_char_ngrams_keys (text language : str) :
  exists ngram_dict,
    extract_char_ngrams text language = Return ngram_dict
    /\ dom ngram_dict = {[1; 2; 3; 4]}.
Proof.
  destruct (extract_char_ngrams_ok text language) as (d & Hrun & Hdom & _).
  by exists d.
Qed.

(** In the result every token filed under length [i] has [i] characters,
    and no token is recorded with a count below 1. *)
Theorem extract_char_ngrams_tokens (text language : str)
    (ngram_dict : gmap Z (gmap str Z)) (i : Z) (counts : gmap str Z)
    (token : str) (n : Z) :
  extract_char_ngrams text language = Return ngram_dict ->
  ngram_dict !! i = Some counts -> counts !! token = Some n ->
  len token = i /\ 1 <= n.
Proof.
  intros Hrun. destruct (extract_char_ngrams_ok text language) as (d & Hd & _ & Hcounts).
  rewrite Hrun in Hd. inversion Hd; subst d. apply Hcounts.
Qed.

(** ** Precision and recall as numbers *)

Lemma truediv_pos (a b : Z) :
  0 < b -> truediv a b = Return (Qred (a # Z.to_pos b)).
Proof.
  intros Hb. unfold truediv. destruct (Z.eqb_spec b 0) as [|_]; [lia|].
  by rewrite Z.sgn_pos, Z.abs_eq, Z.mul_1_r by lia.
Qed.

Lemma Qred_between (a b : Z) :
  0 <= a <= b -> 0 < b -> (0 <= Qred (a # Z.to_pos b) <= 1)%Q.
Proof.
  intros Ha Hb. rewrite Qred_correct. unfold Qle. simpl.
  rewrite Z2Pos.id by done. lia.
Qed.

(** The counters of the two loops: the correct pairs are among the counted
    ones, both loops count the same correct pairs, and no pair is counted
    twice. *)
Lemma precision_counters (aligned_pairs : gmap str str) (pairs : list (str * str))
    (counted0 correct0 : Z) :
  let '(n, c) := foldl (precision_step aligned_pairs) (counted0, correct0) pairs in
  c = foldl (recall_step aligned_pairs) correct0 pairs
  /\ correct0 <= c /\ c - correct0 <= n - counted0 <= Z.of_nat (length pairs).
Proof.
  revert counted0 correct0. induction pairs as [|[src trg] pairs IH];
    intros counted0 correct0; [cbn; lia|].
  cbn [foldl length]. unfold precision_step at 2. unfold recall_step at 2.
  destruct (aligned_pairs !! src) as [aligned_trg|].
  - destruct (decide (trg = aligned_trg)) as [_|_].
    + specialize (IH (counted0 + 1) (correct0 + 1)).
      destruct (foldl _ (counted0 + 1, correct0 + 1) pairs) as [n c]. lia.
    + specialize (IH (counted0 + 1) correct0).
      destruct (foldl _ (counted0 + 1, correct0) pairs) as [n c]. lia.
  - destruct (bool_decide _).
    + specialize (IH (counted0 + 1) correct0).
      destruct (foldl _ (counted0 + 1, correct0) pairs) as [n c]. lia.
    + specialize (IH counted0 correct0).
      destruct (foldl _ (counted0, correct0) pairs) as [n c]. lia.
Qed.

Lemma precision_step_counted (aligned_pairs : gmap str str) (n c : Z)
    (pair : str * str) :
  counted aligned_pairs pair ->
  (precision_step aligned_pairs (n, c) pair).1 = n + 1.
Proof.
  destruct pair as [src trg]. intros [[v Hv]|Hval]; simpl in *.
  - rewrite Hv. by destruct (decide _).
  - destruct (aligned_pairs !! src) as [v|]; [by destruct (decide _)|].
    by rewrite bool_decide_true by (by apply elem_of_values).
Qed.

Lemma precision_counters_some_counted (aligned_pairs : gmap str str)
    (pairs : list (str * str)) (counted0 correct0 : Z) :
  Exists (counted aligned_pairs) pairs ->
  counted0 < (foldl (precision_step aligned_pairs) (counted0, correct0) pairs).1.
Proof.
  intros Hex. revert counted0 correct0.
  induction Hex as [pair pairs Hpair|pair pairs _ IH]; intros counted0 correct0.
  - cbn [foldl]. pose proof (precision_step_counted _ counted0 correct0 _ Hpair) as H1.
    destruct (precision_step _ _ pair) as [n1 c1]. simpl in H1. subst n1.
    pose proof (precision_counters aligned_pairs pairs (counted0 + 1) c1) as H2.
    destruct (foldl _ _ pairs) as [n c]. simpl. lia.
  - cbn [foldl].
    pose proof (precision_counters aligned_pairs [pair] counted0 correct0) as H1.
    cbn [foldl length] in H1.
    destruct (precision_step _ _ pair) as [n1 c1].
    specialize (IH n1 c1). lia.
Qed.

(** With a benchmark that is not empty, [calculate_recall] returns, and the
    value lies between 0 and 1. *)
Theorem calculate_recall_between_0_and_1 (benchmark_pairs aligned_pairs : gmap str str) :
  benchmark_pairs <> ∅ ->
  exists recall,
    calculate_recall benchmark_pairs aligned_pairs = Return recall
    /\ (0 <= recall <= 1)%Q.
Proof.
  intros Hne. unfold calculate_recall.
  assert (0 < Z.of_nat (size benchmark_pairs)) as Hsize.
  { destruct (size benchmark_pairs) eqn:Hs; [|lia]. by apply map_size_empty_inv in Hs. }
  rewrite truediv_pos by done. eexists. split; [reflexivity|].
  apply Qred_between; [|done].
  pose proof (precision_counters aligned_pairs (map_to_list benchmark_pairs) 0 0) as H.
  destruct (foldl (precision_step _) _ _) as [n c].
  rewrite length_map_to_list in H. destruct H as (<- & H1 & H2). lia.
Qed.

Lemma calculate_recall_between_0_and_1_witness :
  benchmark_example <> ∅ /\
  exists recall,
    calculate_recall benchmark_example aligned_example = Return recall
    /\ (0 <= recall <= 1)%Q.
Proof.
  assert (benchmark_example <> ∅) as Hne.
  { intros H. apply (f_equal (fun m => m !! py "a")) in H. vm_compute in H. discriminate H. }
  split; [exact Hne|].
  exact (calculate_recall_between_0_and_1 benchmark_example aligned_example Hne).
Defined.

(** As soon as one benchmark pair has its source among the aligned sources
    or its target among the aligned targets, [calculate_precision] returns,
    and the value lies between 0 and 1. *)
Theorem calculate_precision_between_0_and_1
    (benchmark_pairs aligned_pairs : gmap str str) (src trg : str) :
  benchmark_pairs !! src = Some trg -> counted aligned_pairs (src, trg) ->
  exists precision,
    calculate_precision benchmark_pairs aligned_pairs = Return precision
    /\ (0 <= precision <= 1)%Q.
Proof.
  intros Hpair Hcounted. unfold calculate_precision.
  assert (Exists (counted aligned_pairs) (map_to_list benchmark_pairs)) as Hex.
  { apply Exists_exists. exists (src, trg). split; [|done]. by apply elem_of_map_to_list. }
  apply (precision_counters_some_counted _ _ 0 0) in Hex.
  pose proof (precision_counters aligned_pairs (map_to_list benchmark_pairs) 0 0) as H.
  destruct (foldl (precision_step _) _ _) as [n c]. simpl in Hex.
  rewrite truediv_pos by done. eexists. split; [reflexivity|].
  apply Qred_between; lia.
Qed.

Lemma calculate_precision_between_0_and_1_witness :
  benchmark_example !! py "b" = Some (py "y")
  /\ counted aligned_example (py "b", py "y")
  /\ exists precision,
       calculate_precision benchmark_example aligned_example = Return precision
       /\ (0 <= precision <= 1)%Q.
Proof.
  assert (benchmark_example !! py "b" = Some (py "y")) as Hpair
    by (vm_compute; reflexivity).
  assert (counted aligned_example (py "b", py "y")) as Hcounted
    by (left; exists (py "z"); vm_compute; reflexivity).
  split; [exact Hpair|]. split; [exact Hcounted|].
  exact (calculate_precision_between_0_and_1 benchmark_example aligned_example
           (py "b") (py "y") Hpair Hcounted).
Defined.

(** Whenever both are defined, the recall is at most the precision: the two
    have the same numerator, and the precision divides it by the counted
    pairs only. *)
Theorem calculate_recall_le_precision
    (benchmark_pairs aligned_pairs : gmap str str) (precision recall : Q) :
  calculate_precision benchmark_pairs aligned_pairs = Return precision ->
  calculate_recall benchmark_pairs aligned_pairs = Return recall ->
  (recall <= precision)%Q.
Proof.
  unfold calculate_precision, calculate_recall.
  pose proof (precision_counters aligned_pairs (map_to_list benchmark_pairs) 0 0) as H.
  destruct (foldl (precision_step _) _ _) as [n c].
  rewrite length_map_to_list in H. destruct H as (<- & H1 & H2).
  unfold truediv.
  destruct (Z.eqb_spec n 0) as [|Hn]; [done|].
  destruct (Z.eqb_spec (Z.of_nat (size benchmark_pairs)) 0) as [|Hs]; [done|].
  intros Hp Hr. inversion Hp; subst precision. inversion Hr; subst recall.
  rewrite !Qred_correct. unfold Qle. cbn [Qnum Qden].
  rewrite !Z.sgn_pos, !Z.abs_eq, !Z2Pos.id by lia. nia.
Qed.

Lemma calculate_recall_le_precision_witness :
  calculate_precision benchmark_example aligned_example = Return (1 # 2)%Q
  /\ calculate_recall benchmark_example aligned_example = Return (1 # 2)%Q
  /\ ((1 # 2) <= (1 # 2))%Q.
Proof.
  assert (calculate_precision benchmark_example aligned_example = Return (1 # 2)%Q)
    as Hp by (vm_compute; reflexivity).
  assert (calculate_recall benchmark_example aligned_example = Return (1 # 2)%Q)
    as Hr by (vm_compute; reflexivity).
  split; [exact Hp|]. split; [exact Hr|].
  exact (calculate_recall_le_precision benchmark_example aligned_example _ _ Hp Hr).
Defined.

Lemma counters_all_correct (aligned_pairs : gmap str str) (pairs : list (str * str))
    (counted0 correct0 : Z) :
  Forall (fun pair => aligned_pairs !! pair.1 = Some pair.2) pairs ->
  foldl (precision_step aligned_pairs) (counted0, correct0) pairs
  = (counted0 + Z.of_nat (length pairs), correct0 + Z.of_nat (length pairs)).
Proof.
  intros Hall. revert counted0 correct0.
  induction Hall as [|[src trg] pairs Hpair _ IH]; intros counted0 correct0.
  - cbn. f_equal; lia.
  - cbn [foldl length]. unfold precision_step at 2. simpl in Hpair. rewrite Hpair.
    rewrite decide_True by done. rewrite IH. f_equal; lia.
Qed.

Lemma Qred_same (n : Z) : 0 < n -> Qred (n # Z.to_pos n) = 1%Q.
Proof.
  intros Hn. change 1%Q with (Qred 1). apply Qred_complete.
  unfold Qeq. simpl. rewrite Z2Pos.id by done. lia.
Qed.

Lemma scores_all_correct (benchmark_pairs aligned_pairs : gmap str str) :
  benchmark_pairs <> ∅ ->
  Forall (fun pair => aligned_pairs !! pair.1 = Some pair.2)
         (map_to_list benchmark_pairs) ->
  calculate_precision benchmark_pairs aligned_pairs = Return 1%Q
  /\ calculate_recall benchmark_pairs aligned_pairs = Return 1%Q.
Proof.
  intros Hne Hall.
  assert (0 < Z.of_nat (size benchmark_pairs)) as Hsize.
  { destruct (size benchmark_pairs) eqn:Hs; [|lia]. by apply map_size_empty_inv in Hs. }
  pose proof (precision_counters aligned_pairs (map_to_list benchmark_pairs) 0 0) as H.
  unfold calculate_precision, calculate_recall.
  rewrite (counters_all_correct _ _ 0 0 Hall) in H |- *.
  destruct H as (<- & _). rewrite length_map_to_list, !Z.add_0_l.
  rewrite !truediv_pos, Qred_same by done. done.
Qed.

(** An alignment that contains every benchmark pair scores 1.0 twice,
    whatever else it contains. *)
Theorem perfect_alignment_scores_one (benchmark_pairs aligned_pairs : gmap str str) :
  benchmark_pairs <> ∅ -> benchmark_pairs ⊆ aligned_pairs ->
  calculate_precision benchmark_pairs aligned_pairs = Return 1%Q
  /\ calculate_recall benchmark_pairs aligned_pairs = Return 1%Q.
Proof.
  intros Hne Hsub. apply scores_all_correct; [done|].
  apply Forall_forall. intros [src trg] Hin%elem_of_map_to_list. simpl.
  by eapply lookup_weaken.
Qed.

Lemma perfect_alignment_scores_one_witness :
  benchmark_example <> ∅ /\ benchmark_example ⊆ benchmark_example
  /\ calculate_precision benchmark_example benchmark_example = Return 1%Q
  /\ calculate_recall benchmark_example benchmark_example = Return 1%Q.
Proof.
  assert (benchmark_example <> ∅) as Hne.
  { intros H. apply (f_equal (fun m => m !! py "a")) in H. vm_compute in H. discriminate H. }
  assert (benchmark_example ⊆ benchmark_example) as Hsub by reflexivity.
  split; [exact Hne|]. split; [exact Hsub|].
  exact (perfect_alignment_scores_one benchmark_example benchmark_example Hne Hsub).
Defined.

(** ** [strip] *)

Lemma lstrip_lstrip (s : str) : lstrip (lstrip s) = lstrip s.
Proof.
  induction s as [|c s IH]; [done|]. simpl.
  destruct (isspace c) eqn:Hc; [done|]. simpl. by rewrite Hc.
Qed.

Lemma lstrip_app (a b : str) :
  lstrip (a ++ b) = match lstrip a with
                    | [] => lstrip b
                    | c :: a' => (c :: a') ++ b
                    end.
Proof.
  induction a as [|c a IH]; [reflexivity|]. simpl.
  destruct (isspace c); [exact IH | reflexivity].
Qed.

Lemma rstrip_cons (c : Z) (s : str) :
  rstrip (c :: s) = match rstrip s with
                    | [] => if isspace c then [] else [c]
                    | _ => c :: rstrip s
                    end.
Proof.
  unfold rstrip. cbn [rev]. rewrite lstrip_app.
  destruct (lstrip (rev s)) as [|x t]; simpl.
  - by destruct (isspace c).
  - rewrite rev_app_distr. simpl. by destruct (rev t ++ [x]) eqn:E;
      [apply app_eq_nil in E as [_ E]|].
Qed.

Lemma lstrip_rstrip (s : str) : lstrip (rstrip s) = rstrip (lstrip s).
Proof.
  induction s as [|c s IH]; [done|].
  rewrite rstrip_cons. cbn [lstrip]. destruct (isspace c) eqn:Hc.
  - rewrite <- IH. destruct (rstrip s) as [|x t]; [done|]. simpl. by rewrite Hc.
  - rewrite rstrip_cons. destruct (rstrip s) as [|x t]; simpl; by rewrite Hc.
Qed.

Lemma strip_rstrip_lstrip (s : str) : strip s = rstrip (lstrip s).
Proof. reflexivity. Qed.

(** Stripping twice is stripping once. *)
Lemma strip_strip (s : str) : strip (strip s) = strip s.
Proof.
  rewrite !strip_rstrip_lstrip, lstrip_rstrip, lstrip_lstrip.
  unfold rstrip. by rewrite rev_involutive, lstrip_lstrip.
Qed.

(** ** [load_sentence_pairs] *)

Lemma load_sentence_pairs_foldl (src_file trg_file : str) :
  load_sentence_pairs src_file trg_file
  = foldl (fun m entry => <[entry.1 := entry.2]> m) ∅ (sentence_lines src_file trg_file).
Proof.
  unfold load_sentence_pairs, sentence_lines.
  generalize (zip (readlines src_file) (readlines trg_file)) as lines.
  generalize (∅ : gmap str str) as m.
  intros m lines. revert m. induction lines as [|[sl tl] lines IH]; intros m; [done|].
  rewrite fmap_cons. cbn [foldl]. apply IH.
Qed.

(** Assignments in a loop: the last one to a key is the one that counts. *)
Lemma lookup_foldl_insert (pairs : list (str * str)) (m : gmap str str) (k : str) :
  foldl (fun m entry => <[entry.1 := entry.2]> m) m pairs !! k
  = match last (filter (fun entry => entry.1 = k) pairs) with
    | Some entry => Some entry.2
    | None => m !! k
    end.
Proof.
  revert m. induction pairs as [|[k' v'] pairs IH]; intros m; [done|].
  cbn [foldl]. rewrite IH, filter_cons. cbn [fst snd].
  destruct (decide (k' = k)) as [->|Hne].
  - destruct (filter _ pairs) as [|q qs] eqn:Hf.
    + cbn. by rewrite lookup_insert_eq.
    + change (last ((k, v') :: q :: qs)) with (last (q :: qs)).
      destruct (last (q :: qs)) eqn:Hlast; [done|].
      by apply last_None in Hlast.
  - destruct (last (filter _ pairs)); [done|]. by rewrite lookup_insert_ne.
Qed.


(** Keys and values come stripped: stripping one again changes nothing, so
    none starts or ends with whitespace or keeps its line feed. *)
Theorem load_sentence_pairs_stripped (src_file trg_file : str) (src trg : str) :
  load_sentence_pairs src_file trg_file !! src = Some trg ->
  strip src = src /\ strip trg = trg.
Proof.
  rewrite load_sentence_pairs_foldl, lookup_foldl_insert. intros Hlook.
  destruct (last _) as [[k v]|] eqn:Hlast; [|by rewrite lookup_empty in Hlook].
  inversion Hlook; subst v. apply last_Some_elem_of in Hlast.
  apply list_elem_of_filter in Hlast as [Hk Hin]. simpl in Hk. subst k.
  unfold sentence_lines in Hin. apply list_elem_of_fmap in Hin as ([sl tl] & Heq & _).
  inversion Heq; subst. by rewrite !strip_strip.
Qed.



(** ** [build_unique] *)











(** ** The directory converter: what it leaves behind *)

Lemma convert_lines_dest (name : str) (ngram_length : Z) (lines : list str)
    (dest_dir : gmap str str) :
  (convert_lines name ngram_length lines dest_dir).2 = dest_dir.
Proof. by destruct lines. Qed.

(** [main] never writes a converted line: whatever the source directory
    holds and however the run ends, a file of the destination directory is
    either as it was or empty. *)
Theorem main_writes_nothing (src_dir : list (str * dir_entry))
    (dest_dir : gmap str str) (ngram_length : Z) (name : str) :
  (main src_dir dest_dir ngram_length).2 !! name = dest_dir !! name
  \/ (main src_dir dest_dir ngram_length).2 !! name = Some [].
Proof.
  revert dest_dir. induction src_dir as [|[file entry] src_dir IH]; intros dest_dir;
    [by left|].
  cbn [main]. destruct entry as [content|]; [|apply IH].
  pose proof (convert_lines_dest file ngram_length (readlines content)
                (<[file := []]> dest_dir)) as Hdest.
  destruct (convert_lines _ _ _ _) as [[[]|e] dest_dir']; simpl in Hdest; subst dest_dir'.
  - destruct (IH (<[file := []]> dest_dir)) as [Hsame|Hempty]; [|by right].
    rewrite Hsame. destruct (decide (file = name)) as [->|Hne].
    + right. by rewrite lookup_insert_eq.
    + left. by rewrite lookup_insert_ne.
  - simpl. destruct (decide (file = name)) as [->|Hne].
    + right. by rewrite lookup_insert_eq.
    + left. by rewrite lookup_insert_ne.
Qed.

(** A file that is empty in the destination directory stays empty. *)
Lemma main_keeps_empty (src_dir : list (str * dir_entry))
    (dest_dir : gmap str str) (ngram_length : Z) (name : str) :
  dest_dir !! name = Some [] ->
  (main src_dir dest_dir ngram_length).2 !! name = Some [].
Proof.
  revert dest_dir. induction src_dir as [|[file entry] src_dir IH]; intros dest_dir Hname;
    [done|].
  cbn [main]. destruct entry as [content|]; [|by apply IH].
  assert (<[file := []]> dest_dir !! name = Some []) as Hname'.
  { destruct (decide (file = name)) as [->|Hne];
      [by rewrite lookup_insert_eq | by rewrite lookup_insert_ne]. }
  pose proof (convert_lines_dest file ngram_length (readlines content)
                (<[file := []]> dest_dir)) as Hdest.
  destruct (convert_lines _ _ _ _) as [[[]|e] dest_dir']; simpl in Hdest; subst dest_dir'.
  - by apply IH.
  - done.
Qed.

(** When every regular file of the source directory is empty, [main]
    succeeds, and an (empty) file of the same name stands in the
    destination directory for each of them. *)
Theorem main_empty_files (src_dir : list (str * dir_entry))
    (dest_dir : gmap str str) (ngram_length : Z) :
  Forall (fun entry => forall content, entry.2 = RegularFile content -> content = [])
         src_dir ->
  (main src_dir dest_dir ngram_length).1 = Return ()
  /\ forall name, (name, RegularFile []) ∈ src_dir ->
       (main src_dir dest_dir ngram_length).2 !! name = Some [].
Proof.
  intros Hempty. revert dest_dir.
  induction Hempty as [|[file entry] src_dir Hentry _ IH]; intros dest_dir.
  - split; [done|]. intros name Hin. by apply elem_of_nil in Hin.
  - cbn [main]. destruct entry as [content|].
    + rewrite (Hentry content eq_refl). cbn.
      destruct (IH (<[file := []]> dest_dir)) as [Hrun Hfiles].
      split; [done|]. intros name Hin.
      apply elem_of_cons in Hin as [Heq|Hin]; [|by apply Hfiles].
      inversion Heq; subst name.
      apply main_keeps_empty. by rewrite lookup_insert_eq.
    + destruct (IH dest_dir) as [Hrun Hfiles].
      split; [done|]. intros name Hin.
      apply elem_of_cons in Hin as [Heq|Hin]; [done|by apply Hfiles].
Qed.

Lemma main_empty_files_witness :
  Forall (fun entry => forall content, entry.2 = RegularFile content -> content = [])
         [(py "a.txt", RegularFile []); (py "sub", Other)]
  /\ (main [(py "a.txt", RegularFile []); (py "sub", Other)] ∅ 2).1 = Return ()
  /\ forall name,
       (name, RegularFile []) ∈ [(py "a.txt", RegularFile []); (py "sub", Other)] ->
       (main [(py "a.txt", RegularFile []); (py "sub", Other)] ∅ 2).2 !! name = Some [].
Proof.
  assert (Forall (fun entry : str * dir_entry =>
                    forall content, entry.2 = RegularFile content -> content = [])
                 [(py "a.txt", RegularFile []); (py "sub", Other)]) as Hempty.
  { repeat constructor; simpl; intros content H; by inversion H. }
  split; [exact Hempty|].
  exact (main_empty_files [(py "a.txt", RegularFile []); (py "sub", Other)] ∅ 2 Hempty).
Defined.


(** ** Witnesses of the properties above *)

Lemma load_sentence_pairs_stripped_witness :
  load_sentence_pairs (py " a " ++ [10] ++ py "b") (py "x" ++ [10] ++ py "y" ++ [10])
    !! py "a" = Some (py "x")
  /\ strip (py "a") = py "a" /\ strip (py "x") = py "x".
Proof.
  assert (load_sentence_pairs (py " a " ++ [10] ++ py "b")
            (py "x" ++ [10] ++ py "y" ++ [10]) !! py "a" = Some (py "x")) as Hlook
    by (vm_compute; reflexivity).
  split; [exact Hlook|].
  exact (load_sentence_pairs_stripped _ _ _ _ Hlook).
Defined.

Lemma extract_char_ngrams_one_line_witness :
  (ord "?" ∉ py "ab cd")
  /\ extract_char_ngrams (py "ab cd") (py "en")
     = count_line (py "en") empty_ngram_dict (py "ab cd").
Proof.
  assert (ord "?" ∉ py "ab cd") as Hno.
  { intros Hin%contains_elem_of. vm_compute in Hin. discriminate Hin. }
  split; [exact Hno|].
  exact (extract_char_ngrams_one_line (py "ab cd") (py "en") Hno).
Defined.

Lemma extract_char_ngrams_tokens_witness :
  exists ngram_dict counts,
    extract_char_ngrams (py "ab") (py "en") = Return ngram_dict
    /\ ngram_dict !! 2 = Some counts
    /\ counts !! py "ab" = Some 1
    /\ len (py "ab") = 2 /\ 1 <= 1.
Proof.
  pose (d := match extract_char_ngrams (py "ab") (py "en") with
             | Return d => d
             | Raise _ => ∅
             end).
  pose (counts := default ∅ (d !! 2)).
  assert (extract_char_ngrams (py "ab") (py "en") = Return d) as Hrun
    by (vm_compute; reflexivity).
  assert (d !! 2 = Some counts) as Hi by (vm_compute; reflexivity).
  assert (counts !! py "ab" = Some 1) as Htoken by (vm_compute; reflexivity).
  exists d, counts. split; [exact Hrun|]. split; [exact Hi|]. split; [exact Htoken|].
  exact (extract_char_ngrams_tokens _ _ d 2 counts (py "ab") 1 Hrun Hi Htoken).
Defined.

(** ** [get_natural_language_words] on plain words separated by spaces *)

Lemma isalnum_isword (c : Z) : isalnum c = true -> isword c = true.
Proof. unfold isword. by intros ->. Qed.

Lemma isalnum_other (c : Z) :
  isalnum c = true ->
  (c =? ord "_") = false /\ (c =? 0x2019) = false /\ (c =? ord "'") = false
  /\ (c =? ord "-") = false /\ (c =? ord "/") = false /\ c <> 32.
Proof.
  intros Hc. repeat split; [apply Z.eqb_neq..|]; intros ->; vm_compute in Hc;
    discriminate Hc.
Qed.

(** On a letter or digit the repeated group takes the character; the
    second alternative is never needed. *)
Lemma exec_word_split_char_alnum {R : Type} (s : str) (st : mstate)
    (k : mstate -> option R) (c : Z) :
  s !! pos st = Some c -> isalnum c = true ->
  exec s word_split_char st k = k (set_mark 2 (pos st, S (pos st)) (advance st)).
Proof.
  intros Hc Halnum. destruct (isalnum_other c Halnum) as (Hu & Hq & Ha & Hh & _).
  unfold word_split_char. cbn [exec pos]. rewrite Hc.
  unfold in_set. cbn [existsb item_matches category_matches].
  rewrite (isalnum_isword c Halnum), Hu, Hq, Ha, Hh. cbn [negb orb xorb].
  cbn [advance pos]. by destruct (k _).
Qed.

(** At a space or at the end of the string it takes nothing. *)
Lemma exec_word_split_char_gap {R : Type} (s : str) (st : mstate)
    (k : mstate -> option R) :
  s !! pos st = None \/ s !! pos st = Some 32 ->
  exec s word_split_char st k = None.
Proof.
  intros [Hc|Hc]; unfold word_split_char; cbn [exec pos]; rewrite Hc; reflexivity.
Qed.

Lemma repeat_loop_gap {R : Type} (s : str) (st : mstate) (k : mstate -> option R)
    (fuel : nat) :
  s !! pos st = None \/ s !! pos st = Some 32 ->
  repeat_loop (exec s word_split_char) k fuel st = None.
Proof. intros Hgap. destruct fuel; cbn [repeat_loop]; by apply exec_word_split_char_gap. Qed.

Lemma pos_run_state (st : mstate) (n : nat) : pos (run_state st n) = (pos st + n)%nat.
Proof.
  revert st. induction n as [|n IH]; intros st; cbn [run_state]; [lia|].
  rewrite IH. cbn [pos set_mark advance]. lia.
Qed.

(** The greedy repetition runs over a whole word of letters and digits and
    hands over at its end. *)
Lemma repeat_loop_run {R : Type} (s : str) (k : mstate -> option R) (x : R) (n : nat) :
  forall (st : mstate) (fuel : nat),
    (forall j, (j < S n)%nat ->
       exists c, s !! (pos st + j)%nat = Some c /\ isalnum c = true) ->
    s !! (pos st + S n)%nat = None \/ s !! (pos st + S n)%nat = Some 32 ->
    (n <= fuel)%nat ->
    k (run_state st (S n)) = Some x ->
    repeat_loop (exec s word_split_char) k fuel st = Some x.
Proof.
  induction n as [|n IH]; intros st fuel Hrun Hgap Hfuel Hk.
  all: destruct (Hrun 0%nat ltac:(lia)) as (c & Hc & Halnum).
  all: rewrite Nat.add_0_r in Hc.
  all: destruct fuel as [|fuel]; cbn [repeat_loop].
  all: rewrite (exec_word_split_char_alnum s st _ c Hc Halnum).
  all: cbn [pos set_mark advance].
  - exact Hk.
  - rewrite (proj2 (Nat.ltb_lt _ _)) by lia.
    rewrite repeat_loop_gap; [exact Hk|].
    cbn [pos set_mark advance]. by rewrite <- Nat.add_1_r.
  - lia.
  - rewrite (proj2 (Nat.ltb_lt _ _)) by lia.
    rewrite (IH (set_mark 2 (pos st, S (pos st)) (advance st)) fuel); [done| | |lia|done].
    + intros j Hj. cbn [pos set_mark advance].
      replace (S (pos st) + j)%nat with (pos st + S j)%nat by lia. apply Hrun. lia.
    + cbn [pos set_mark advance].
      by replace (S (pos st) + S n)%nat with (pos st + S (S n))%nat by lia.
Qed.

Lemma match_at_gap (s : str) (i : nat) :
  s !! i = None \/ s !! i = Some 32 -> match_at word_split_re s i = None.
Proof.
  intros Hgap. unfold match_at, word_split_re. cbn [exec pos].
  destruct (at_boundary s i); [|done]. by rewrite repeat_loop_gap.
Qed.

(** A word of letters and digits that stands between spaces (or the ends of
    the string) is matched whole when the scan reaches its first
    character. *)
Lemma match_at_word (s pre w rest : str) :
  s = pre ++ w ++ rest -> w <> [] -> Forall (fun c => isalnum c = true) w ->
  (pre = [] \/ exists pre', pre = pre' ++ [32]) ->
  (rest = [] \/ exists rest', rest = 32 :: rest') ->
  exists m,
    match_at word_split_re s (length pre) = Some m
    /\ m_start m = length pre /\ m_end m = (length pre + length w)%nat
    /\ group s m 1 = w.
Proof.
  intros -> Hne Hw Hpre Hrest.
  set (s := pre ++ w ++ rest). set (p := length pre).
  assert (exists n, length w = S n) as [n Hlen]
    by (destruct w; [done | by eexists]).
  assert (forall j, (j < length w)%nat ->
            exists c, s !! (p + j)%nat = Some c /\ isalnum c = true) as Hrun.
  { intros j Hj. destruct (lookup_lt_is_Some_2 w j Hj) as [c Hc]. exists c.
    split; [|by eapply (proj1 (Forall_lookup _ _) Hw)].
    unfold s, p. rewrite lookup_app_r by lia.
    replace (length pre + j - length pre)%nat with j by lia.
    by apply lookup_app_l_Some. }
  assert (s !! (p + length w)%nat = None \/ s !! (p + length w)%nat = Some 32) as Hgap.
  { unfold s, p. rewrite lookup_app_r by lia.
    replace (length pre + length w - length pre)%nat with (length w) by lia.
    rewrite lookup_app_r by lia. rewrite Nat.sub_diag.
    destruct Hrest as [->|[rest' ->]]; [by left | by right]. }
  assert (at_boundary s p = true) as Hstart.
  { unfold at_boundary. destruct (Hrun 0%nat ltac:(lia)) as (c & Hc & Halnum).
    rewrite Nat.add_0_r in Hc. rewrite Hc. cbn [from_option].
    rewrite (isalnum_isword c Halnum).
    destruct Hpre as [Hnil|[pre' Hpre']].
    - unfold p. by rewrite Hnil.
    - unfold p. rewrite Hpre', length_app. cbn [length]. rewrite Nat.add_1_r.
      unfold s. rewrite Hpre', <- app_assoc, lookup_app_r by lia.
      by rewrite Nat.sub_diag. }
  assert (at_boundary s (p + length w) = true) as Hend.
  { unfold at_boundary. rewrite Hlen.
    replace (p + S n)%nat with (S (p + n)) by lia.
    destruct (Hrun n ltac:(lia)) as (c & Hc & Halnum). rewrite Hc.
    cbn [from_option]. rewrite (isalnum_isword c Halnum).
    replace (S (p + n)) with (p + length w)%nat by lia.
    by destruct Hgap as [->| ->]. }
  eexists. split; [|split; [|split]].
  - unfold match_at, word_split_re. cbn [exec pos]. rewrite Hstart.
    erewrite (repeat_loop_run s _ _ n (MState p [])); [reflexivity|..].
    + intros j Hj. cbn [pos]. apply Hrun. lia.
    + cbn [pos]. by rewrite <- Hlen.
    + unfold s, p. rewrite !length_app. cbn [pos]. lia.
    + cbn [set_mark pos marks]. rewrite pos_run_state. cbn [pos].
      rewrite <- Hlen, Hend. reflexivity.
  - reflexivity.
  - unfold m_end. cbn [m_state pos set_mark]. rewrite pos_run_state. cbn [pos]. lia.
  - unfold group, mark_of. cbn [m_state marks set_mark list_find].
    rewrite decide_True by done. cbn [fmap option_fmap option_map from_option snd].
    unfold span_text. cbn [fst snd].
    replace (p + length w - p)%nat with (length w) by lia.
    unfold s, p. rewrite drop_app_length. by rewrite take_app_length.
Qed.

Lemma search_from_hit (r : regex) (s : str) (fuel i : nat) (m : match_object) :
  match_at r s i = Some m -> search_from r s fuel i = Some m.
Proof. intros Hm. destruct fuel; cbn [search_from]; by rewrite Hm. Qed.

Lemma finditer_from_skip (r : regex) (s : str) (fuel i : nat) :
  match_at r s i = None -> (i < length s)%nat ->
  finditer_from r s fuel i = finditer_from r s fuel (S i).
Proof.
  intros Hmiss Hi. destruct fuel as [|fuel]; [done|]. cbn [finditer_from].
  rewrite (proj2 (Nat.ltb_ge _ _)) by lia. rewrite (proj2 (Nat.ltb_ge _ (S i))) by lia.
  replace (length s - i)%nat with (S (length s - S i)) by lia.
  cbn [search_from]. by rewrite Hmiss.
Qed.

Lemma finditer_from_end (r : regex) (s : str) (fuel : nat) :
  match_at r s (length s) = None -> finditer_from r s fuel (length s) = [].
Proof.
  intros Hmiss. destruct fuel as [|fuel]; [done|]. cbn [finditer_from].
  rewrite Nat.ltb_irrefl, Nat.sub_diag. cbn [search_from]. by rewrite Hmiss.
Qed.

Lemma join_spaces_cons (w w' : str) (words : list str) :
  join_spaces (w :: w' :: words) = w ++ 32 :: join_spaces (w' :: words).
Proof. reflexivity. Qed.

Lemma Forall_join_spaces (P : Z -> Prop) (words : list str) :
  P 32 -> Forall (Forall P) words -> Forall P (join_spaces words).
Proof.
  intros Hspace. induction 1 as [|w words Hw Hwords IH]; [constructor|].
  destruct words as [|w' words]; [done|]. rewrite join_spaces_cons.
  apply Forall_app. split; [done|]. by constructor.
Qed.

(** The scan over words of letters and digits separated by single spaces
    finds the words, one after the other. *)
Lemma finditer_words (words : list str) :
  forall (pre : str) (fuel : nat),
    words <> [] ->
    Forall (fun w => w <> [] /\ Forall (fun c => isalnum c = true) w) words ->
    (pre = [] \/ exists pre', pre = pre' ++ [32]) ->
    (length words < fuel)%nat ->
    (fun m => group (pre ++ join_spaces words) m 1)
      <$> finditer_from word_split_re (pre ++ join_spaces words) fuel (length pre)
    = words.
Proof.
  induction words as [|w words IH]; intros pre fuel Hne Hwords Hpre Hfuel; [done|].
  apply Forall_cons in Hwords as [[Hw Hletters] Hwords].
  destruct fuel as [|fuel]; [lia|]. cbn [length] in Hfuel.
  destruct words as [|w' words].
  - cbn [join_spaces].
    destruct (match_at_word (pre ++ w) pre w [] ltac:(by rewrite app_nil_r) Hw Hletters
                Hpre ltac:(by left)) as (m & Hm & Hstart & Hend & Hgroup).
    cbn [finditer_from]. rewrite (proj2 (Nat.ltb_ge _ _)) by (rewrite length_app; lia).
    rewrite (search_from_hit _ _ _ _ _ Hm), Hstart, Hend.
    rewrite (proj2 (Nat.eqb_neq _ _)) by (destruct w; [done|simpl; lia]).
    rewrite <- length_app, finditer_from_end.
    + by rewrite fmap_cons, Hgroup.
    + apply match_at_gap. left. by apply lookup_ge_None.
  - rewrite join_spaces_cons. set (rest := join_spaces (w' :: words)) in *.
    destruct (match_at_word (pre ++ w ++ 32 :: rest) pre w (32 :: rest) eq_refl Hw
                Hletters Hpre ltac:(right; by eexists)) as (m & Hm & Hstart & Hend & Hgroup).
    cbn [finditer_from].
    rewrite (proj2 (Nat.ltb_ge _ _)) by (rewrite length_app; lia).
    rewrite (search_from_hit _ _ _ _ _ Hm), Hstart, Hend.
    rewrite (proj2 (Nat.eqb_neq _ _)) by (destruct w; [done|simpl; lia]).
    rewrite fmap_cons, Hgroup. f_equal.
    rewrite finditer_from_skip.
    + replace (pre ++ w ++ 32 :: rest) with ((pre ++ w ++ [32]) ++ rest)
        by (by rewrite <- !app_assoc).
      replace (S (length pre + length w)) with (length (pre ++ w ++ [32]))
        by (rewrite !length_app; simpl; lia).
      apply IH; [done|done| |lia].
      right. exists (pre ++ w). by rewrite <- app_assoc.
    + apply match_at_gap. right.
      rewrite lookup_app_r by lia. rewrite lookup_app_r by lia.
      by replace (length pre + length w - length pre - length w)%nat with 0%nat by lia.
    + rewrite !length_app. simpl. lia.
Qed.

Lemma natural_letters (w : str) :
  w <> [] -> Forall (fun c => isalnum c = true /\ isdecimal c = false) w ->
  natural w = (2 <=? len w).
Proof.
  intros Hne Hw. unfold natural. rewrite fullmatch_nl_word_complete; [apply andb_true_r|done|].
  eapply Forall_impl; [exact Hw|]. intros c [Halnum Hdigit]. unfold natural_char.
  destruct (isalnum_other c Halnum) as (-> & _).
  by rewrite Hdigit, (isalnum_isword c Halnum).
Qed.

(** On a line of words separated by single spaces, each word made of
    letters (alphanumeric characters that are not decimal digits), the
    function returns the words of two letters or more, all of them and
    nothing else, in the order of the line. *)
Theorem get_natural_language_words_spaced (words : list str) :
  Forall (fun w => w <> []
                   /\ Forall (fun c => isalnum c = true /\ isdecimal c = false) w)
         words ->
  get_natural_language_words (join_spaces words)
  = Return (List.filter (fun w => 2 <=? len w) words).
Proof.
  intros Hwords. rewrite get_natural_language_words_survivors. f_equal.
  assert (url_like (join_spaces words) = false) as Hurl.
  { unfold url_like. apply andb_false_intro2.
    destruct (contains (ord "/") (join_spaces words)) eqn:Hslash; [|done].
    apply contains_elem_of in Hslash.
    assert (Forall (fun c => c <> ord "/") (join_spaces words)) as Hno.
    { apply Forall_join_spaces; [done|].
      eapply Forall_impl; [exact Hwords|]. intros w [_ Hw].
      eapply Forall_impl; [exact Hw|]. intros c [Halnum _].
      destruct (isalnum_other c Halnum) as (_ & _ & _ & _ & Hs & _).
      by apply Z.eqb_neq. }
    rewrite Forall_forall in Hno. by destruct (Hno _ Hslash). }
  assert (candidate_words (join_spaces words) = words) as ->.
  { destruct words as [|w words]; [reflexivity|].
    unfold candidate_words, finditer.
    apply (finditer_words (w :: words) [] _ ltac:(done)); [|by left|].
    - eapply Forall_impl; [exact Hwords|]. intros w0 [Hne Hw0]. split; [done|].
      eapply Forall_impl; [exact Hw0|]. by intros c [? _].
    - assert (length (w :: words) <= length (join_spaces (w :: words)))%nat; [|lia].
      clear Hurl. induction Hwords as [|w0 ws [Hne _] _ IH]; [done|].
      destruct ws as [|w1 ws]; [destruct w0; [done|simpl; lia]|].
      rewrite join_spaces_cons, length_app. cbn [length] in *. lia. }
  unfold survives. rewrite Hurl. cbn [negb andb].
  apply filter_ext_in. intros w Hin%list_elem_of_In.
  rewrite Forall_forall in Hwords. destruct (Hwords w Hin) as [Hne Hw].
  by apply natural_letters.
Qed.

Lemma get_natural_language_words_spaced_witness :
  Forall (fun w => w <> []
                   /\ Forall (fun c => isalnum c = true /\ isdecimal c = false) w)
         [py "to"; py "be"; py "a"; py "word"]
  /\ get_natural_language_words (join_spaces [py "to"; py "be"; py "a"; py "word"])
     = Return (List.filter (fun w => 2 <=? len w) [py "to"; py "be"; py "a"; py "word"]).
Proof.
  assert (Forall (fun w : str => w <> []
                   /\ Forall (fun c => isalnum c = true /\ isdecimal c = false) w)
                 [py "to"; py "be"; py "a"; py "word"]) as Hwords.
  { repeat (constructor; [split; [discriminate | repeat constructor]|]). constructor. }
  split; [exact Hwords|].
  exact (get_natural_language_words_spaced _ Hwords).
Defined.

(** ** [extract_char_ngrams]: the counts add up *)

Lemma zsum_cons {A : Type} (f : A -> Z) (x : A) (l : list A) :
  zsum f (x :: l) = f x + zsum f l.
Proof. reflexivity. Qed.

Lemma zsum_app {A : Type} (f : A -> Z) (l1 l2 : list A) :
  zsum f (l1 ++ l2) = zsum f l1 + zsum f l2.
Proof.
  induction l1 as [|x l1 IH]; [reflexivity|].
  rewrite <- app_comm_cons, !zsum_cons, IH. lia.
Qed.

Lemma zsum_const {A : Type} (c : Z) (l : list A) : zsum (fun _ => c) l = c * len l.
Proof.
  unfold len. induction l as [|x l IH]; [cbn; lia|].
  rewrite zsum_cons, IH. cbn [length]. lia.
Qed.

Lemma zsum_filter {A : Type} (f : A -> Z) (keep : A -> bool) (l : list A) :
  zsum (fun x => if keep x then f x else 0) l = zsum f (List.filter keep l).
Proof.
  induction l as [|x l IH]; [done|]. rewrite zsum_cons, IH. cbn [List.filter].
  destruct (keep x); [by rewrite zsum_cons | lia].
Qed.

Lemma zsum_concat {A B : Type} (f : B -> Z) (g : A -> list B) (l : list A) :
  zsum (fun x => zsum f (g x)) l = zsum f (concat (g <$> l)).
Proof.
  induction l as [|x l IH]; [done|]. rewrite fmap_cons. cbn [concat].
  rewrite zsum_app, <- IH. reflexivity.
Qed.

Lemma filter_concat {A : Type} (keep : A -> bool) (ls : list (list A)) :
  List.filter keep (concat ls) = concat (List.filter keep <$> ls).
Proof.
  induction ls as [|l ls IH]; [done|]. rewrite fmap_cons. cbn [concat].
  by rewrite List.filter_app, IH.
Qed.

(** A loop whose body keeps an invariant and adds [delta x] to a measure of
    the state adds the sum of the [delta]. *)
Lemma for_each_measure {S A : Type} (P : S -> Prop) (mu : S -> Z) (delta : A -> Z)
    (body : S -> A -> result S) (xs : list A) :
  (forall s x, x ∈ xs -> P s ->
     exists s', body s x = Return s' /\ P s' /\ mu s' = mu s + delta x) ->
  forall s, P s ->
    exists s', for_each body xs s = Return s' /\ P s' /\ mu s' = mu s + zsum delta xs.
Proof.
  induction xs as [|x xs IH]; intros Hbody s Hs.
  - exists s. cbn. split; [done|]. split; [done|lia].
  - destruct (Hbody s x ltac:(left) Hs) as (s1 & Hrun & Hs1 & Hmu1).
    cbn [for_each]. rewrite Hrun. cbn [mbind result_bind].
    destruct (IH ltac:(intros s' y Hy; apply Hbody; by right) s1 Hs1)
      as (s2 & Hrun2 & Hs2 & Hmu2).
    exists s2. split; [done|]. split; [done|]. rewrite zsum_cons. lia.
Qed.

Lemma total_count_insert (counts : gmap str Z) (token : str) :
  total_count (<[token := match counts !! token with
                          | Some n => n + 1
                          | None => 1
                          end]> counts)
  = total_count counts + 1.
Proof.
  unfold total_count.
  assert (forall (m : gmap str Z) j1 j2 z1 z2 y,
            j1 <> j2 -> m !! j1 = Some z1 -> m !! j2 = Some z2 ->
            z1 + (z2 + y) = z2 + (z1 + y)) as Hcomm by (intros; lia).
  destruct (counts !! token) as [n|] eqn:Hn.
  - rewrite <- insert_delete_eq.
    rewrite map_fold_insert_L; [|apply Hcomm|apply lookup_delete_eq].
    rewrite (map_fold_delete_L _ _ token n counts); [lia|apply Hcomm|done].
  - rewrite map_fold_insert_L; [lia|apply Hcomm|done].
Qed.

Lemma count_token_total (i j : Z) (ngram_dict : gmap Z (gmap str Z)) (token : str) :
  1 <= i <= 4 -> len token = i -> ngram_dict_ok ngram_dict ->
  exists ngram_dict',
    count_token i ngram_dict token = Return ngram_dict'
    /\ ngram_dict_ok ngram_dict'
    /\ total_under j ngram_dict'
       = total_under j ngram_dict + (if decide (j = i) then 1 else 0).
Proof.
  intros Hi Hlen Hok.
  destruct (count_token_ok i ngram_dict token Hi Hlen Hok) as (d' & Hrun & Hok').
  exists d'. split; [done|]. split; [done|].
  destruct Hok as [Hdom _]. unfold count_token in Hrun.
  assert (i ∈ dom ngram_dict) as Hin by (by rewrite Hdom, elem_of_lengths).
  apply elem_of_dom in Hin as [counts Hlook]. rewrite Hlook in Hrun.
  inversion Hrun; subst d'. unfold total_under.
  destruct (decide (j = i)) as [->|Hne].
  - rewrite lookup_insert_eq, Hlook. cbn [default from_option id].
    apply total_count_insert.
  - rewrite lookup_insert_ne by done. lia.
Qed.

Lemma count_word_total (language : str) (i j : Z)
    (ngram_dict : gmap Z (gmap str Z)) (nlw : str) :
  1 <= i <= 4 -> ngram_dict_ok ngram_dict ->
  exists ngram_dict',
    count_word language i ngram_dict nlw = Return ngram_dict'
    /\ ngram_dict_ok ngram_dict'
    /\ total_under j ngram_dict'
       = total_under j ngram_dict
         + (if decide (j = i)
            then if valid_word language nlw then len (tokenize_word nlw i) else 0
            else 0).
Proof.
  intros Hi Hok. unfold count_word, valid_word.
  destruct (is_valid_language_word_total nlw language) as [valid ->].
  cbn [mbind result_bind]. destruct valid.
  - destruct (for_each_measure ngram_dict_ok (total_under j)
                (fun _ => if decide (j = i) then 1 else 0)
                (count_token i) (tokenize_word nlw i)) with (s := ngram_dict)
      as (d' & Hrun & Hok' & Hmu); [|done|].
    + intros d token Htoken Hd. apply count_token_total; [done| |done].
      apply (tokenize_word_token_length nlw); [lia|done].
    + exists d'. split; [done|]. split; [done|]. rewrite Hmu, zsum_const.
      destruct (decide (j = i)); lia.
  - exists ngram_dict. split; [done|]. split; [done|]. destruct (decide (j = i)); lia.
Qed.

Lemma count_line_total (language : str) (j : Z) (ngram_dict : gmap Z (gmap str Z))
    (line : str) :
  1 <= j <= 4 -> ngram_dict_ok ngram_dict ->
  exists ngram_dict',
    count_line language ngram_dict line = Return ngram_dict'
    /\ ngram_dict_ok ngram_dict'
    /\ total_under j ngram_dict'
       = total_under j ngram_dict
         + zsum (fun w => len (tokenize_word w j))
                (List.filter (valid_word language) (words_of line)).
Proof.
  intros Hj Hok. unfold count_line. rewrite get_natural_language_words_survivors.
  cbn [mbind result_bind]. fold (words_of line).
  destruct (for_each_measure ngram_dict_ok (total_under j)
              (fun i => if decide (j = i)
                        then zsum (fun w => len (tokenize_word w j))
                               (List.filter (valid_word language) (words_of line))
                        else 0)
              (fun d i => for_each (count_word language i) (words_of line) d)
              (range 1 5)) with (s := ngram_dict)
    as (d' & Hrun & Hok' & Hmu); [|done|].
  - intros d i Hi Hd.
    assert (1 <= i <= 4) as Hi'.
    { change (range 1 5) with [1; 2; 3; 4] in Hi.
      rewrite !elem_of_cons, elem_of_nil in Hi. lia. }
    destruct (for_each_measure ngram_dict_ok (total_under j)
                (fun w => if decide (j = i)
                          then if valid_word language w
                               then len (tokenize_word w i) else 0
                          else 0)
                (count_word language i) (words_of line)) with (s := d)
      as (d1 & Hrun1 & Hok1 & Hmu1); [|done|].
    + intros d0 w _ Hd0. by apply count_word_total.
    + exists d1. split; [done|]. split; [done|]. rewrite Hmu1. f_equal.
      destruct (decide (j = i)) as [->|Hne].
      * apply zsum_filter.
      * rewrite zsum_const. lia.
  - exists d'. split; [done|]. split; [done|]. rewrite Hmu. f_equal.
    change (range 1 5) with [1; 2; 3; 4]. cbn [zsum foldr].
    repeat destruct (decide _); lia.
Qed.

(** Nothing is lost and nothing is counted twice: the counts filed under a
    length add up to the number of n-grams of that length of the counted
    words. *)
Theorem extract_char_ngrams_total (text language : str) (i : Z) :
  1 <= i <= 4 ->
  exists ngram_dict,
    extract_char_ngrams text language = Return ngram_dict
    /\ total_under i ngram_dict
       = zsum (fun w => len (tokenize_word w i)) (counted_words language text).
Proof.
  intros Hi. unfold extract_char_ngrams, split, counted_words.
  cbn [mbind result_bind].
  destruct (for_each_measure ngram_dict_ok (total_under i)
              (fun line => zsum (fun w => len (tokenize_word w i))
                             (List.filter (valid_word language) (words_of line)))
              (count_line language) (split_from [13; ord "?"; 10] 0 [] text))
    with (s := empty_ngram_dict) as (d & Hrun & _ & Hmu);
    [|apply empty_ngram_dict_ok|].
  - intros d line _ Hd. by apply count_line_total.
  - exists d. split; [done|]. rewrite Hmu.
    rewrite (zsum_concat _ (fun line => List.filter (valid_word language) (words_of line))).
    rewrite filter_concat, <- list_fmap_compose.
    assert (total_under i empty_ngram_dict = 0) as ->; [|done].
    unfold total_under.
    destruct (empty_ngram_dict !! i) as [counts|] eqn:Hlook; [|reflexivity].
    unfold empty_ngram_dict in Hlook. change (range 1 5) with [1; 2; 3; 4] in Hlook.
    cbn [foldl] in Hlook.
    repeat (apply lookup_insert_Some in Hlook as [[_ <-]|[_ Hlook]]; [reflexivity|]).
    by rewrite lookup_empty in Hlook.
Qed.

Lemma extract_char_ngrams_total_witness :
  1 <= 2 <= 4
  /\ exists ngram_dict,
       extract_char_ngrams (py "to be") (py "en") = Return ngram_dict
       /\ total_under 2 ngram_dict
          = zsum (fun w => len (tokenize_word w 2)) (counted_words (py "en") (py "to be")).
Proof.
  assert (1 <= 2 <= 4) as Hi by lia.
  split; [exact Hi|].
  exact (extract_char_ngrams_total (py "to be") (py "en") 2 Hi).
Defined.

(** ** Loading and scoring together *)

Lemma sentence_lines_nonempty (src_file trg_file : str) :
  src_file <> [] -> trg_file <> [] -> sentence_lines src_file trg_file <> [].
Proof.
  intros Hsrc%readlines_nonempty Htrg%readlines_nonempty. unfold sentence_lines.
  destruct (readlines src_file); [done|]. by destruct (readlines trg_file).
Qed.

Lemma load_sentence_pairs_nonempty (src_file trg_file : str) :
  src_file <> [] -> trg_file <> [] -> load_sentence_pairs src_file trg_file <> ∅.
Proof.
  intros Hsrc Htrg Hempty.
  pose proof (sentence_lines_nonempty src_file trg_file Hsrc Htrg) as Hlines.
  destruct (last (sentence_lines src_file trg_file)) as [[k v]|] eqn:Hlast;
    [|by apply last_None in Hlast].
  apply (f_equal (fun m => m !! k)) in Hempty.
  rewrite load_sentence_pairs_foldl, lookup_foldl_insert, lookup_empty in Hempty.
  apply last_Some in Hlast as [front Hfront]. rewrite Hfront in Hempty.
  rewrite filter_app, filter_cons_True in Hempty by done.
  cbn [filter list_filter] in Hempty.
  change (filter (fun entry : str * str => entry.1 = k) []) with (@nil (str * str)) in Hempty.
  by rewrite last_snoc in Hempty.
Qed.

(** Scoring a corpus against itself - the same two files as benchmark and
    as alignment - gives precision 1.0 and recall 1.0, provided neither
    file is empty. *)
Theorem corpus_against_itself (src_file trg_file : str) :
  src_file <> [] -> trg_file <> [] ->
  calculate_precision (load_sentence_pairs src_file trg_file)
                      (load_sentence_pairs src_file trg_file) = Return 1%Q
  /\ calculate_recall (load_sentence_pairs src_file trg_file)
                      (load_sentence_pairs src_file trg_file) = Return 1%Q.
Proof.
  intros Hsrc Htrg. apply scores_all_correct; [by apply load_sentence_pairs_nonempty|].
  apply Forall_forall. by intros [src trg] Hin%elem_of_map_to_list.
Qed.

Lemma corpus_against_itself_witness :
  py "a" ++ [10] <> [] /\ py "x" ++ [10] <> []
  /\ calculate_precision (load_sentence_pairs (py "a" ++ [10]) (py "x" ++ [10]))
                         (load_sentence_pairs (py "a" ++ [10]) (py "x" ++ [10]))
     = Return 1%Q
  /\ calculate_recall (load_sentence_pairs (py "a" ++ [10]) (py "x" ++ [10]))
                      (load_sentence_pairs (py "a" ++ [10]) (py "x" ++ [10]))
     = Return 1%Q.
Proof.
  assert (py "a" ++ [10] <> []) as Hsrc by discriminate.
  assert (py "x" ++ [10] <> []) as Htrg by discriminate.
  split; [exact Hsrc|]. split; [exact Htrg|].
  exact (corpus_against_itself _ _ Hsrc Htrg).
Defined.

(** An empty benchmark file on either side leaves no benchmark pair, and
    both scores then fail with [ZeroDivisionError], whatever the alignment. *)
Theorem empty_benchmark_file (src_file trg_file : str) (aligned_pairs : gmap str str) :
  src_file = [] \/ trg_file = [] ->
  load_sentence_pairs src_file trg_file = ∅
  /\ calculate_precision (load_sentence_pairs src_file trg_file) aligned_pairs
     = Raise ZeroDivisionError
  /\ calculate_recall (load_sentence_pairs src_file trg_file) aligned_pairs
     = Raise ZeroDivisionError.
Proof.
  intros Hempty.
  assert (load_sentence_pairs src_file trg_file = ∅) as ->.
  { unfold load_sentence_pairs. destruct Hempty as [-> | ->]; [done|].
    by destruct (readlines src_file). }
  split; [done|]. unfold calculate_precision, calculate_recall.
  by rewrite map_to_list_empty, map_size_empty.
Qed.

Lemma empty_benchmark_file_witness :
  ([] = @nil Z \/ py "x" = [])
  /\ load_sentence_pairs [] (py "x") = ∅
  /\ calculate_precision (load_sentence_pairs [] (py "x")) aligned_example
     = Raise ZeroDivisionError
  /\ calculate_recall (load_sentence_pairs [] (py "x")) aligned_example
     = Raise ZeroDivisionError.
Proof.
  assert ([] = @nil Z \/ py "x" = []) as Hempty by (by left).
  split; [exact Hempty|].
  exact (empty_benchmark_file [] (py "x") aligned_example Hempty).
Defined.
